(** * DASH manifest pipeline of StreamingCommunity: a shallow embedding

    Embedded sources:
    - [StreamingCommunity/Lib/Downloader/DASH/parser.py]
      ([URLBuilder], [SegmentTimelineParser], [RepresentationParser],
      [MPDParser]);
    - [StreamingCommunity/Lib/Downloader/DASH/cdm_helpher.py]
      ([get_widevine_keys]).

    Conventions.  Python [str] values are modelled by [string] (one
    character per byte, ASCII text); Python [int] by [Z]; [None]-able
    values by [option]; a [dict] used as a map by [gmap string _]; a
    [dict] with a fixed set of keys by a record.  A Python exception is
    a value [Raise e] of the [result] type, threaded by [let*]. *)

From Stdlib Require Import ZArith DecimalString Ascii.
From stdpp Require Import gmap strings list sorting.

Local Open Scope Z_scope.

(** ** Exceptions and the error monad *)

Inductive exn : Type :=
| ValueError      (* int() on a text that is not a decimal integer *)
| SyntaxError     (* ElementPath: prefix not found in prefix map *)
| AttributeError  (* attribute access on None *)
| RequestError    (* transport failure of the HTTP client *)
| HTTPError       (* raise_for_status on an error status *)
| ParseError      (* ET.fromstring on malformed XML *)
| CdmError.       (* any failure inside the CDM library *)

Inductive result (A : Type) : Type :=
| Ok (a : A)
| Raise (e : exn).
Arguments Ok {A} a.
Arguments Raise {A} e.

Definition rbind {A B} (m : result A) (k : A → result B) : result B :=
  match m with
  | Ok a => k a
  | Raise e => Raise e
  end.

Notation "'let*' x ':=' m 'in' k" := (rbind m (λ x, k))
  (at level 10, x pattern, m at level 100, k at level 200).

(** ** Python text primitives *)

Module Py.

Definition truthy (s : option string) : bool :=
  match s with
  | Some (String _ _) => true
  | _ => false
  end.

(** [str.isspace] on the ASCII range. *)
Definition is_space (c : ascii) : bool :=
  let n := nat_of_ascii c in
  ((9 <=? n) && (n <=? 13) || (28 <=? n) && (n <=? 32))%nat.

Fixpoint lstrip (s : string) : string :=
  match s with
  | String c s' => if is_space c then lstrip s' else s
  | EmptyString => EmptyString
  end.

(** [rstrip] keeps a character when it is not a space or when a
    character that is kept follows it. *)
Fixpoint rstrip (s : string) : string :=
  match s with
  | String c s' =>
      match rstrip s' with
      | EmptyString => if is_space c then EmptyString else String c EmptyString
      | r => String c r
      end
  | EmptyString => EmptyString
  end.

Definition strip (s : string) : string := rstrip (lstrip s).

Fixpoint startswith (p s : string) : bool :=
  match p, s with
  | EmptyString, _ => true
  | String a p', String b s' => if decide (a = b) then startswith p' s' else false
  | String _ _, EmptyString => false
  end.

(** [sub in s] *)
Fixpoint contains (sub s : string) : bool :=
  startswith sub s ||
  match s with
  | String _ s' => contains sub s'
  | EmptyString => false
  end.

(** [c in s] for a single character. *)
Fixpoint has_char (c : ascii) (s : string) : bool :=
  match s with
  | String a s' => if decide (a = c) then true else has_char c s'
  | EmptyString => false
  end.

(** [s.split(c, 1)]: [None] when [c] does not occur (the one-element
    list), [Some (before, after)] around the first [c] otherwise. *)
Fixpoint split1 (c : ascii) (s : string) : option (string * string) :=
  match s with
  | EmptyString => None
  | String a s' =>
      if decide (a = c) then Some (EmptyString, s')
      else match split1 c s' with
           | Some (l, r) => Some (String a l, r)
           | None => None
           end
  end.

(** [s.split(c)[0]] *)
Definition split_head (c : ascii) (s : string) : string :=
  match split1 c s with
  | Some (l, _) => l
  | None => s
  end.

(** [s[:n]], [s[n:]] and [s[a:b]] for indices that are not negative. *)
Fixpoint take (n : nat) (s : string) : string :=
  match n, s with
  | S n', String c s' => String c (take n' s')
  | _, _ => EmptyString
  end.

Fixpoint drop (n : nat) (s : string) : string :=
  match n, s with
  | S n', String _ s' => drop n' s'
  | _, _ => s
  end.

Definition slice (a b : nat) (s : string) : string := take (b - a) (drop a s).

(** [s.rsplit(c, 1)[0]]: what precedes the last [c], or all of [s]. *)
Fixpoint rsplit1 (c : ascii) (s : string) : option (string * string) :=
  match s with
  | EmptyString => None
  | String a s' =>
      match rsplit1 c s' with
      | Some (l, r) => Some (String a l, r)
      | None => if decide (a = c) then Some (EmptyString, s') else None
      end
  end.

Definition rsplit_head (c : ascii) (s : string) : string :=
  match rsplit1 c s with
  | Some (l, _) => l
  | None => s
  end.

(** [s.replace(old, new)] for a non-empty [old]: leftmost
    non-overlapping occurrences.  [skip] counts the characters of a
    matched occurrence that remain to be dropped. *)
Fixpoint replace_from (old new s : string) (skip : nat) : string :=
  match s with
  | EmptyString => EmptyString
  | String c s' =>
      match skip with
      | S k => replace_from old new s' k
      | O =>
          if startswith old s
          then new +:+ replace_from old new s' (String.length old - 1)
          else String c (replace_from old new s' 0)
      end
  end.

Definition replace (old new s : string) : string := replace_from old new s 0.

Definition lower_char (c : ascii) : ascii :=
  let n := nat_of_ascii c in
  if ((65 <=? n) && (n <=? 90))%nat then ascii_of_nat (n + 32) else c.

Fixpoint lower (s : string) : string :=
  match s with
  | String c s' => String (lower_char c) (lower s')
  | EmptyString => EmptyString
  end.

Definition digit_val (c : ascii) : option Z :=
  let n := nat_of_ascii c in
  if ((48 <=? n) && (n <=? 57))%nat then Some (Z.of_nat n - 48) else None.

Definition is_digit (c : ascii) : bool :=
  match digit_val c with Some _ => true | None => false end.

(** Digits of a decimal literal, single underscores allowed between
    digits; [prev] tells whether the previous character was a digit. *)
Fixpoint int_digits (acc : Z) (prev : bool) (s : string) : option Z :=
  match s with
  | EmptyString => if prev then Some acc else None
  | String c s' =>
      match digit_val c with
      | Some d => int_digits (10 * acc + d) true s'
      | None =>
          if decide (c = "_"%char)
          then (if prev then int_digits acc false s' else None)
          else None
      end
  end.

(** [int(s)] for a text [s]: surrounding white space, an optional
    sign, decimal digits. *)
Definition int (s : string) : result Z :=
  let body :=
    match strip s with
    | String "-" t => option_map Z.opp (int_digits 0 false t)
    | String "+" t => int_digits 0 false t
    | t => int_digits 0 false t
    end in
  match body with
  | Some z => Ok z
  | None => Raise ValueError
  end.

(** [str(n)] for an integer. *)
Definition str (n : Z) : string := NilZero.string_of_int (Z.to_int n).

Fixpoint zeros (n : nat) : string :=
  match n with
  | O => EmptyString
  | S k => String "0" (zeros k)
  end.

(** [s.zfill(width)]: the padding goes after a leading sign. *)
Definition zfill (width : nat) (s : string) : string :=
  let pad := zeros (width - String.length s) in
  match s with
  | String "-" t => String "-" (pad +:+ t)
  | String "+" t => String "+" (pad +:+ t)
  | _ => pad +:+ s
  end.

End Py.

(** ** xml.etree.ElementTree *)

#[warnings="-register-all"]
Inductive Element : Type :=
| Elem (tag : string) (attrib : gmap string string)
       (text : option string) (children : list Element).

Definition tag (e : Element) : string := let 'Elem t _ _ _ := e in t.
Definition attrib (e : Element) : gmap string string := let 'Elem _ a _ _ := e in a.
Definition text (e : Element) : option string := let 'Elem _ _ t _ := e in t.
Definition children (e : Element) : list Element := let 'Elem _ _ _ c := e in c.

Module ET.

(** [elem.get(key)] *)
Definition get (e : Element) (key : string) : option string := attrib e !! key.

(** ElementPath resolves [prefix:name] through the prefix map and
    raises [SyntaxError] when the prefix is not in it. *)
Definition qname (ns : gmap string string) (prefix name : string) : result string :=
  match ns !! prefix with
  | Some uri => Ok ("{" +:+ uri +:+ "}" +:+ name)
  | None => Raise SyntaxError
  end.

(** A resolved name selects the elements with exactly that tag (the
    wild cards of ElementPath need a namespace URI that is [*]). *)
Definition has_tag (t : string) (e : Element) : bool := bool_decide (tag e = t).

(** [elem.findall('prefix:name', ns)]: the children with that tag. *)
Definition findall (e : Element) (ns : gmap string string) (prefix name : string)
  : result (list Element) :=
  let* t := qname ns prefix name in
  Ok (base.filter (λ c, has_tag t c = true) (children e)).

(** [elem.find('prefix:name', ns)]: the first such child. *)
Definition find (e : Element) (ns : gmap string string) (prefix name : string)
  : result (option Element) :=
  let* l := findall e ns prefix name in
  Ok (head l).

(** The proper descendants of an element, in document order. *)
Fixpoint descendants (e : Element) : list Element :=
  let 'Elem _ _ _ cs := e in
  (fix go (l : list Element) : list Element :=
     match l with
     | [] => []
     | c :: l' => c :: descendants c ++ go l'
     end) cs.

(** [elem.findall('.//prefix:name', ns)] *)
Definition findall_desc (e : Element) (ns : gmap string string) (prefix name : string)
  : result (list Element) :=
  let* t := qname ns prefix name in
  Ok (base.filter (λ c, has_tag t c = true) (descendants e)).

End ET.

(** ** SegmentTimelineParser *)

Module SegmentTimelineParser.

(** The local variables of [parse]. *)
Record state : Type := State {
  number_list : list Z;
  time_list : list Z;
  current_time : option Z;
  start_number : Z;
}.

Definition init : state :=
  {| number_list := []; time_list := []; current_time := None; start_number := 1 |}.

(** [for i in range(k)]: the body of the inner loop, [k] times, with
    [current_time] already an integer. *)
Fixpoint emit (k : nat) (d : Z) (nl tl : list Z) (ct sn : Z) : state :=
  match k with
  | O => {| number_list := nl; time_list := tl; current_time := Some ct; start_number := sn |}
  | S k' => emit k' d (nl ++ [sn]) (tl ++ [ct]) (ct + d) (sn + 1)
  end.

(** One iteration of the loop over the [S] elements. *)
Definition step (st : state) (s_element : Element) : result state :=
  match ET.get s_element "d" with
  | None => Ok st
  | Some d =>
      let* d := Py.int d in
      let* r := match ET.get s_element "r" with
                | Some r => Py.int r
                | None => Ok 0
                end in
      let* ct := match ET.get s_element "t" with
                 | Some t => Py.int t
                 | None => Ok (default 0 (current_time st))
                 end in
      Ok (emit (Z.to_nat (r + 1)) d (number_list st) (time_list st) ct (start_number st))
  end.

Fixpoint loop (st : state) (l : list Element) : result state :=
  match l with
  | [] => Ok st
  | s :: l' => let* st' := step st s in loop st' l'
  end.

Definition parse (ns : gmap string string) (seg_timeline_element : option Element)
  : result (list Z * list Z) :=
  match seg_timeline_element with
  | None => Ok ([], [])
  | Some tl =>
      let* ss := ET.findall tl ns "mpd" "S" in
      let* st := loop init ss in
      Ok (number_list st, time_list st)
  end.

End SegmentTimelineParser.

(** ** URLBuilder *)

Module URLBuilder.
Section WithUrljoin.

(** [urllib.parse.urljoin], a library function the parser only calls. *)
Variable urljoin : string → string → string.

(** The longest run of digits at the head of a text, and what follows. *)
Fixpoint span_digits (s : string) : string * string :=
match s with
| String c s' =>
    if Py.is_digit c
    then let '(ds, r) := span_digits s' in (String c ds, r)
    else (EmptyString, s)
| EmptyString => (EmptyString, EmptyString)
end.

(** [int] of a run of digits. *)
Fixpoint digits_value (acc : Z) (ds : string) : Z :=
match ds with
| String c ds' => digits_value (10 * acc + default 0 (Py.digit_val c)) ds'
| EmptyString => acc
end.

(** A match of [\$Number(\%0\d+d)?\$] at the head of [s]: the digits
  of group 1 (which the inner [re.match(r'%0(\d+)d', fmt)]
  recovers), if the group took part, and the length of the match. *)
Definition match_number (s : string) : option (option string * nat) :=
if Py.startswith "$Number" s then
  match Py.drop 7 s with
  | String "$" _ => Some (None, 8%nat)
  | String "%" (String "0" r) =>
      match span_digits r with
      | (String c ds, String "d" (String "$" _)) =>
          Some (Some (String c ds), (11 + String.length (String c ds))%nat)
      | _ => None
      end
  | _ => None
  end
else None.

(** [_replace_number_match] *)
Definition _replace_number_match (number : option Z) (fmt : option string) : string :=
let num := default 0 number in
match fmt with
| Some ds => Py.zfill (Z.to_nat (digits_value 0 ds)) (Py.str num)
| None => Py.str num
end.

(** [re.sub] with that pattern: leftmost non-overlapping matches;
  [skip] counts the characters of the current match still to drop. *)
Fixpoint sub_number (number : option Z) (s : string) (skip : nat) : string :=
match s with
| EmptyString => EmptyString
| String c s' =>
    match skip with
    | S k => sub_number number s' k
    | O =>
        match match_number s with
        | Some (fmt, len) =>
            _replace_number_match number fmt +:+ sub_number number s' (len - 1)
        | None => String c (sub_number number s' 0)
        end
    end
end.

Definition _replace_number (template : string) (number : option Z) : string :=
sub_number number template 0.

Definition _finalize_url (base template : string) : string :=
let '(path_and_query, frag) :=
  match Py.split1 "#" template with
  | Some (l, r) => (l, "#" +:+ r)
  | None => (template, "")
  end in
if Py.has_char "?" path_and_query then
  match Py.split1 "?" path_and_query with
  | Some (path_part, query_part) =>
      urljoin base path_part +:+ "?" +:+ query_part +:+ frag
  | None => urljoin base path_and_query +:+ frag
  end
else urljoin base path_and_query +:+ frag.

Definition build_url (base : string) (template : option string)
  (rep_id : option string) (number time bandwidth : option Z) : option string :=
match template with
| Some (String c t0) =>
    let template := String c t0 in
    let template :=
      match rep_id with
      | Some i => Py.replace "$RepresentationID$" i template
      | None => template
      end in
    let template :=
      match bandwidth with
      | Some b => Py.replace "$Bandwidth$" (Py.str b) template
      | None => template
      end in
    let template := _replace_number template number in
    let template :=
      match time with
      | Some t =>
          if Py.contains "$Time$" template
          then Py.replace "$Time$" (Py.str t) template
          else template
      | None => template
      end in
    Some (_finalize_url base template)
| _ => None
end.

End WithUrljoin.
End URLBuilder.

(** ** Representation: the dictionary built by [_parse_representation] *)

Module Rep.
Record t : Type := Make {
  id : option string;
  type : string;
  codec : option string;
  bandwidth : Z;
  width : Z;
  height : Z;
  language : string;
  init_url : option string;
  segment_urls : list (option string);
}.
End Rep.
Abbreviation Representation := Rep.t.

(** ** RepresentationParser *)

Module RepresentationParser.
Section WithUrljoin.

Variable urljoin : string → string → string.
Variable ns : gmap string string.

(** [int(x) if x else None] *)
Definition int_or_none (x : option string) : result (option Z) :=
if Py.truthy x
then match x with
     | Some s => let* n := Py.int s in Ok (Some n)
     | None => Ok None
     end
else Ok None.

(** [int(x) if x else 0] *)
Definition int_or_zero (x : option string) : result Z :=
let* n := int_or_none x in Ok (default 0 n).

(** [list(range(a, a + 100))] and the like. *)
Definition range (a : Z) (n : nat) : list Z := (λ i, a + Z.of_nat i) <$> seq 0 n.

Definition _build_media_urls (media_template : option string) (base_url : string)
  (rep_id bandwidth : option string) (number_list time_list : list Z)
: result (list (option string)) :=
if negb (Py.truthy media_template) then Ok []
else
  let* bandwidth_int := int_or_none bandwidth in
  let template := default "" media_template in
  if Py.contains "$Time$" template && negb (bool_decide (time_list = [])) then
    Ok ((λ t, URLBuilder.build_url urljoin base_url media_template
                rep_id None (Some t) bandwidth_int) <$> time_list)
  else if Py.contains "$Number" template && negb (bool_decide (number_list = [])) then
    Ok ((λ n, URLBuilder.build_url urljoin base_url media_template
                rep_id (Some n) None bandwidth_int) <$> number_list)
  else
    Ok [URLBuilder.build_url urljoin base_url media_template
          rep_id None None bandwidth_int].

Definition _build_segment_urls (seg_tmpl : Element) (rep_id bandwidth : option string)
  (base_url : string) : result (option string * list (option string)) :=
let init := ET.get seg_tmpl "initialization" in
let media := ET.get seg_tmpl "media" in
let* start_number := match ET.get seg_tmpl "startNumber" with
                     | Some s => Py.int s
                     | None => Ok 1
                     end in
let* init_url :=
  if Py.truthy init
  then let* b := int_or_none bandwidth in
       Ok (URLBuilder.build_url urljoin base_url init rep_id None None b)
  else Ok None in
let* seg_timeline := ET.find seg_tmpl ns "mpd" "SegmentTimeline" in
let* (number_list, time_list) := SegmentTimelineParser.parse ns seg_timeline in
let number_list :=
  if bool_decide (number_list = []) then range start_number 100 else number_list in
let* media_urls :=
  _build_media_urls media base_url rep_id bandwidth number_list time_list in
Ok (init_url, media_urls).

(** One level of [_resolve_base_url]. *)
Definition join_base (base : string) (e : Element) : result string :=
let* b := ET.find e ns "mpd" "BaseURL" in
match b with
| Some b =>
    if Py.truthy (text b)
    then Ok (urljoin base (Py.strip (default "" (text b))))
    else Ok base
| None => Ok base
end.

Definition _resolve_base_url (rep_element adapt_set : Element) (initial_base : string)
: result string :=
let* base := join_base initial_base adapt_set in
join_base base rep_element.

Definition _parse_representation (rep_element adapt_set : Element)
  (adapt_seg_template : option Element) (base_url mime_type lang : string)
: result (option Representation) :=
let rep_id := ET.get rep_element "id" in
let bandwidth := ET.get rep_element "bandwidth" in
let codecs := ET.get rep_element "codecs" in
let width := ET.get rep_element "width" in
let height := ET.get rep_element "height" in
let* rep_seg_template := ET.find rep_element ns "mpd" "SegmentTemplate" in
let seg_tmpl :=
  match rep_seg_template with
  | Some e => Some e
  | None => adapt_seg_template
  end in
match seg_tmpl with
| None => Ok None
| Some seg_tmpl =>
    let* rep_base_url := _resolve_base_url rep_element adapt_set base_url in
    let* (init_url, media_urls) :=
      _build_segment_urls seg_tmpl rep_id bandwidth rep_base_url in
    let* bw := int_or_zero bandwidth in
    let* w := int_or_zero width in
    let* h := int_or_zero height in
    Ok (Some {| Rep.id := rep_id;
                Rep.type := if Py.truthy (Some mime_type)
                            then Py.split_head "/" mime_type else "unknown";
                Rep.codec := codecs;
                Rep.bandwidth := bw;
                Rep.width := w;
                Rep.height := h;
                Rep.language := lang;
                Rep.init_url := init_url;
                Rep.segment_urls := media_urls |})
end.

Fixpoint parse_representations (reps : list Element) (adapt_set : Element)
  (adapt_seg_template : option Element) (base_url mime_type lang : string)
: result (list Representation) :=
match reps with
| [] => Ok []
| rep_element :: reps' =>
    let* r := _parse_representation rep_element adapt_set adapt_seg_template
                base_url mime_type lang in
    let* rs := parse_representations reps' adapt_set adapt_seg_template
                 base_url mime_type lang in
    Ok (match r with Some r => r :: rs | None => rs end)
end.

Definition parse_adaptation_set (adapt_set : Element) (base_url : string)
: result (list Representation) :=
let mime_type := default "" (ET.get adapt_set "mimeType") in
let lang := default "" (ET.get adapt_set "lang") in
let* adapt_seg_template := ET.find adapt_set ns "mpd" "SegmentTemplate" in
let* reps := ET.findall adapt_set ns "mpd" "Representation" in
parse_representations reps adapt_set adapt_seg_template base_url mime_type lang.

End WithUrljoin.
End RepresentationParser.

(** ** MPDParser *)

Module MPDParser.

(** *** The static selectors *)

Definition key3 (r : Representation) : Z * Z * Z :=
  (Rep.height r, Rep.width r, Rep.bandwidth r).

(** Python's [<] on tuples of three integers. *)
Definition lt3 (a b : Z * Z * Z) : bool :=
  let '(a1, a2, a3) := a in
  let '(b1, b2, b3) := b in
  (a1 <? b1) || ((a1 =? b1) && ((a2 <? b2) || ((a2 =? b2) && (a3 <? b3)))).

(** [max(l, key=...)] on a non-empty list [best :: l]: the running
    maximum changes only on a strictly greater key. *)
Fixpoint max_from {A K} (lt : K → K → bool) (key : A → K) (best : A) (l : list A) : A :=
  match l with
  | [] => best
  | x :: l' => max_from lt key (if lt (key best) (key x) then x else best) l'
  end.

(** [min(l, key=...)] likewise. *)
Fixpoint min_from {A K} (lt : K → K → bool) (key : A → K) (best : A) (l : list A) : A :=
  match l with
  | [] => best
  | x :: l' => min_from lt key (if lt (key x) (key best) then x else best) l'
  end.

Definition is_type (ty : string) (r : Representation) : bool :=
  bool_decide (Rep.type r = ty).

Definition of_type (ty : string) (representations : list Representation)
  : list Representation :=
  base.filter (λ r, is_type ty r = true) representations.

Definition get_best (representations : list Representation) : option Representation :=
  let videos := of_type "video" representations in
  let audios := of_type "audio" representations in
  match videos, audios with
  | v :: vs, _ => Some (max_from lt3 key3 v vs)
  | [], a :: aus => Some (max_from Z.ltb Rep.bandwidth a aus)
  | [], [] => None
  end.

Definition get_worst (representations : list Representation) : option Representation :=
  let videos := of_type "video" representations in
  let audios := of_type "audio" representations in
  match videos, audios with
  | v :: vs, _ => Some (min_from lt3 key3 v vs)
  | [], a :: aus => Some (min_from Z.ltb Rep.bandwidth a aus)
  | [], [] => None
  end.

Definition get_list (representations : list Representation) (type_filter : option string)
  : list Representation :=
  if Py.truthy type_filter
  then of_type (default "" type_filter) representations
  else representations.

(** *** The parser object *)

Record t : Type := Make {
  mpd_url : string;
  pssh : option string;
  representations : list Representation;
  ns : gmap string string;
  root : option Element;
  console : list string;   (* what [console.print] has written *)
}.

(** [__init__] *)
Definition new (mpd_url : string) : t :=
  {| mpd_url := mpd_url; pssh := None; representations := [];
     ns := ∅; root := None; console := [] |}.

Definition set_root (self : t) (r : Element) : t :=
  {| mpd_url := mpd_url self; pssh := pssh self;
     representations := representations self; ns := ns self;
     root := Some r; console := console self |}.

Definition set_ns (self : t) (m : gmap string string) : t :=
  {| mpd_url := mpd_url self; pssh := pssh self;
     representations := representations self; ns := m;
     root := root self; console := console self |}.

Definition set_pssh (self : t) (p : option string) : t :=
  {| mpd_url := mpd_url self; pssh := p;
     representations := representations self; ns := ns self;
     root := root self; console := console self |}.

Definition set_representations (self : t) (l : list Representation) : t :=
  {| mpd_url := mpd_url self; pssh := pssh self;
     representations := l; ns := ns self;
     root := root self; console := console self |}.

Definition print (self : t) (msg : string) : t :=
  {| mpd_url := mpd_url self; pssh := pssh self;
     representations := representations self; ns := ns self;
     root := root self; console := console self ++ [msg] |}.

(** A method: the object after the call, and how the call ended. *)
Definition method : Type := t → t * result unit.

Definition seq_ (m1 m2 : method) : method :=
  λ self,
    match m1 self with
    | (self', Ok _) => m2 self'
    | (self', Raise e) => (self', Raise e)
    end.

(** *** Fetching *)

(** What one [requests.get] attempt meets. *)
Inductive reply : Type :=
| NoReply                                   (* [requests.get] raises *)
| Reply (status_error : bool)               (* [raise_for_status] raises *)
        (document : option Element).        (* [ET.fromstring], [None] if it raises *)

(** The body of the [try] block. *)
Definition attempt_once (r : reply) : result Element :=
  match r with
  | NoReply => Raise RequestError
  | Reply true _ => Raise HTTPError
  | Reply false None => Raise ParseError
  | Reply false (Some doc) => Ok doc
  end.

Definition retry_message (attempt : nat) (max_retry : Z) : string :=
  "[bold yellow]Retrying... (" +:+ Py.str (Z.of_nat attempt + 1) +:+ "/"
    +:+ Py.str max_retry +:+ ")[/bold yellow]".

(** [for attempt in range(max_retry + 1)], with [n] iterations left. *)
Fixpoint fetch_loop (max_retry : Z) (network : nat → reply) (n attempt : nat) : method :=
  λ self,
    match n with
    | O => (self, Ok ())
    | S n' =>
        match attempt_once (network attempt) with
        | Ok doc => (set_root self doc, Ok ())
        | Raise e =>
            if Z.of_nat attempt =? max_retry then (self, Raise e)
            else fetch_loop max_retry network n' (S attempt)
                   (print self (retry_message attempt max_retry))
        end
    end.

Definition _fetch_and_parse_mpd (max_retry : Z) (network : nat → reply) : method :=
  fetch_loop max_retry network (Z.to_nat (max_retry + 1)) 0.

(** *** Namespaces and PSSH *)

Definition _extract_namespace : method :=
  λ self,
    match root self with
    | None => (self, Raise AttributeError)
    | Some r =>
        if Py.startswith "{" (tag r) then
          let uri := Py.split_head "}" (Py.drop 1 (tag r)) in
          (set_ns self (<["cenc" := "urn:mpeg:cenc:2013"]> (<["mpd" := uri]> (ns self))),
           Ok ())
        else (self, Ok ())
    end.

(** The loop of [_extract_pssh]: the text that ends it by [break]. *)
Fixpoint first_pssh (m : gmap string string) (l : list Element) : result (option string) :=
  match l with
  | [] => Ok None
  | protection :: l' =>
      let* pssh_element := ET.find protection m "cenc" "pssh" in
      match pssh_element with
      | Some e => if Py.truthy (text e) then Ok (text e) else first_pssh m l'
      | None => first_pssh m l'
      end
  end.

Definition pssh_missing : string := "[bold red]PSSH not found in MPD![/bold red]".

Definition _extract_pssh : method :=
  λ self,
    match root self with
    | None => (self, Raise AttributeError)
    | Some r =>
        match (let* l := ET.findall_desc r (ns self) "mpd" "ContentProtection" in
               first_pssh (ns self) l) with
        | Raise e => (self, Raise e)
        | Ok found =>
            let self := match found with
                        | Some p => set_pssh self (Some p)
                        | None => self
                        end in
            (if Py.truthy (pssh self) then self else print self pssh_missing, Ok ())
        end
    end.

(** *** Representations *)

Section WithUrljoin.

Variable urljoin : string → string → string.

Definition _get_initial_base_url (self : t) (r : Element) : result string :=
  let base_url := Py.rsplit_head "/" (mpd_url self) +:+ "/" in
  let* mpd_base := ET.find r (ns self) "mpd" "BaseURL" in
  match mpd_base with
  | Some b =>
      if Py.truthy (text b)
      then Ok (urljoin base_url (Py.strip (default "" (text b))))
      else Ok base_url
  | None => Ok base_url
  end.

(** The loop over the adaptation sets; [extend] reaches the object
    one adaptation set at a time. *)
Fixpoint parse_sets (base_url : string) (l : list Element) : method :=
  λ self,
    match l with
    | [] => (self, Ok ())
    | adapt_set :: l' =>
        match RepresentationParser.parse_adaptation_set urljoin (ns self)
                adapt_set base_url with
        | Raise e => (self, Raise e)
        | Ok reps =>
            parse_sets base_url l'
              (set_representations self (representations self ++ reps))
        end
    end.

Definition _parse_representations : method :=
  λ self,
    match root self with
    | None => (self, Raise AttributeError)
    | Some r =>
        match (let* base_url := _get_initial_base_url self r in
               let* sets := ET.findall_desc r (ns self) "mpd" "AdaptationSet" in
               Ok (base_url, sets)) with
        | Raise e => (self, Raise e)
        | Ok (base_url, sets) => parse_sets base_url sets self
        end
    end.

Definition parse (max_retry : Z) (network : nat → reply) : method :=
  seq_ (_fetch_and_parse_mpd max_retry network)
    (seq_ _extract_namespace (seq_ _extract_pssh _parse_representations)).

End WithUrljoin.

(** *** Queries on the parsed object *)

Definition get_resolutions (self : t) : list Representation :=
  of_type "video" (representations self).

Definition get_audios (self : t) : list Representation :=
  of_type "audio" (representations self).

Definition get_best_video (self : t) : option Representation :=
  match get_resolutions self with
  | [] => None
  | v :: vs => Some (max_from lt3 key3 v vs)
  end.

Definition get_best_audio (self : t) : option Representation :=
  match get_audios self with
  | [] => None
  | a :: aus => Some (max_from Z.ltb Rep.bandwidth a aus)
  end.

(** [rep['language'] or "None"] *)
Definition language_or_none (rep : Representation) : string :=
  match Rep.language rep with
  | EmptyString => "None"
  | l => l
  end.

(** The inner loop of [select_audio]: the first representation that
    the test accepts. *)
Fixpoint first_of_lang (lang : string) (audio_reps : list Representation)
  : option Representation :=
  match audio_reps with
  | [] => None
  | rep :: l =>
      if bool_decide (Py.lower (language_or_none rep) = Py.lower lang)
      then Some rep
      else first_of_lang lang l
  end.

(** The outer loop: the selection and the language that made it. *)
Fixpoint first_preferred (langs : list string) (audio_reps : list Representation)
  : option (Representation * string) :=
  match langs with
  | [] => None
  | lang :: langs' =>
      match first_of_lang lang audio_reps with
      | Some rep => Some (rep, lang)
      | None => first_preferred langs' audio_reps
      end
  end.

(** [select_audio]: (selected_audio, list_available_audio_langs,
    filter_custom_audio, downloadable_audio). *)
Definition select_audio (self : t) (preferred_audio_langs : option (list string))
  : option Representation * list string * string * string :=
  let audio_reps := get_audios self in
  let list_available_audio_langs := language_or_none <$> audio_reps in
  let '(selected_audio, filter_custom_audio) :=
    match preferred_audio_langs with
    | Some (lang :: langs) =>
        match first_preferred (lang :: langs) audio_reps with
        | Some (rep, l) => (Some rep, l)
        | None => (get_best_audio self, "First")
        end
    | _ => (get_best_audio self, "First")
    end in
  let downloadable_audio :=
    match selected_audio with
    | Some rep => language_or_none rep
    | None => "N/A"
    end in
  (selected_audio, list_available_audio_langs, filter_custom_audio, downloadable_audio).



End MPDParser.

(** ** cdm_helpher.py: the Widevine key extraction *)

Module Widevine.

(** The values met in the fields [kid] and [key] of a key object:
    [bytes], a [uuid.UUID] (by its sixteen bytes), or any other object
    (by its [str()]). *)
Inductive value : Type :=
| Bytes (b : list Byte.byte)
| UUID (b : list Byte.byte)
| Other (s : string).

Record Key : Type := MkKey {
  type : string;
  kid : value;
  key : value;
}.

(** The dictionaries of the returned list. *)
Record ContentKey : Type := MkContentKey {
  ck_kid : string;
  ck_key : string;
}.

Definition hex_digit (n : N) : ascii :=
  (if n <? 10 then ascii_of_N (48 + n) else ascii_of_N (87 + n))%N.

(** [bytes.hex()] *)
Fixpoint hex (b : list Byte.byte) : string :=
  match b with
  | [] => EmptyString
  | x :: b' =>
      let n := Byte.to_N x in
      String (hex_digit (n / 16)%N) (String (hex_digit (n mod 16)%N) (hex b'))
  end.

(** [str(u)] for a UUID: the 32 hex digits in groups 8-4-4-4-12. *)
Definition uuid_str (b : list Byte.byte) : string :=
  let h := hex b in
  Py.slice 0 8 h +:+ "-" +:+ Py.slice 8 12 h +:+ "-" +:+ Py.slice 12 16 h +:+ "-"
    +:+ Py.slice 16 20 h +:+ "-" +:+ Py.drop 20 h.

(** [v.hex() if isinstance(v, bytes) else str(v)] *)
Definition hex_or_str (v : value) : string :=
  match v with
  | Bytes b => hex b
  | UUID b => uuid_str b
  | Other s => s
  end.

(** [s.replace('-', '').strip()] *)
Definition normalize (s : string) : string := Py.strip (Py.replace "-" "" s).

(** The loop that collects the CONTENT keys. *)
Fixpoint content_keys (keys : list Key) : list ContentKey :=
  match keys with
  | [] => []
  | k :: keys' =>
      if bool_decide (type k = "CONTENT")
      then {| ck_kid := normalize (hex_or_str (kid k));
              ck_key := normalize (hex_or_str (key k)) |} :: content_keys keys'
      else content_keys keys'
  end.

(** The license response, as far as the function reads it.  [json] is
    [response.json()] when the body is a JSON object of texts; every
    other body ends in the same [except] clause and is a [Raise]. *)
Record Response : Type := MkResponse {
  status_code : Z;
  content : list Byte.byte;
  content_type : option string;
  json : result (gmap string string);
}.

(** What the CDM library and the network do during one call.  The
    request (the URL with its query parameters, the headers with the
    default [Content-Type], the challenge as body) only feeds
    [requests.post]; the model keeps what the call returns. *)
Record world : Type := MkWorld {
  open_session : result unit;          (* Device.load, Cdm.from_device, cdm.open *)
  get_license_challenge : result unit; (* PSSH(pssh), cdm.get_license_challenge *)
  post : result Response;
  b64decode : string → result (list Byte.byte);
  parse_license : list Byte.byte → result unit;
  get_keys : result (list Key);
  close : result unit;
}.

(** What [console.print] is given, by the kind of the message. *)
Inductive diagnostic : Type :=
| InvalidDevicePath    (* Invalid CDM device path. *)
| RequestFailed        (* Request error: ... *)
| LicenseStatus        (* License error: status, text *)
| LicenseContext       (* url, headers, session_id, pssh *)
| LicenseFieldMissing  (* 'license' field not found in JSON response *)
| LicenseJsonError     (* Error parsing JSON license: ... *)
| LicenseEmpty         (* License data is empty. *)
| LicenseParseError    (* Error parsing license: ... *)
| NoContentKeys        (* No CONTENT keys found in license. *)
| CdmFailure.          (* CDM error: ... *)

(** The license bytes read off the response: the decoded [license]
    field of a JSON body, the raw body otherwise; a diagnostic where
    the function gives up with [return None]. *)
Definition license_of (w : world) (response : Response)
  : diagnostic + list Byte.byte :=
  if Py.contains "application/json" (default "" (content_type response)) then
    match json response with
    | Ok data =>
        match data !! "license" with
        | Some l =>
            match b64decode w l with
            | Ok b => inr b
            | Raise _ => inl LicenseJsonError
            end
        | None => inl LicenseFieldMissing
        end
    | Raise _ => inl LicenseJsonError
    end
  else inr (content response).

(** The body of the inner [try]: [Ok (log, v)] is [return v] after the
    messages of [log]; an exception leaves it without a message. *)
Definition exchange (w : world) : result (list diagnostic * option (list ContentKey)) :=
  let* _ := get_license_challenge w in
  match post w with
  | Raise _ => Ok ([RequestFailed], None)
  | Ok response =>
      if negb (status_code response =? 200) then Ok ([LicenseStatus; LicenseContext], None)
      else
        match license_of w response with
        | inl d => Ok ([d], None)
        | inr [] => Ok ([LicenseEmpty], None)
        | inr bytes =>
            match parse_license w bytes with
            | Raise _ => Ok ([LicenseParseError], None)
            | Ok _ =>
                let* keys := get_keys w in
                match content_keys keys with
                | [] => Ok ([NoContentKeys], None)
                | cks => Ok ([], Some cks)
                end
            end
        end
  end.

(** [try: ... finally: cdm.close(session_id)]: an exception of
    [close] replaces the outcome of the body. *)
Definition with_session (w : world)
  : list diagnostic * result (option (list ContentKey)) :=
  match open_session w with
  | Raise e => ([], Raise e)
  | Ok _ =>
      match exchange w with
      | Raise e => ([], let* _ := close w in Raise e)
      | Ok (log, v) => (log, let* _ := close w in Ok v)
      end
  end.

(** [get_widevine_keys]: the messages printed, and [Ok v] for
    [return v]; [Raise] would be an exception that leaves the
    function. *)
Definition get_widevine_keys (cdm_device_path : option string) (w : world)
  : list diagnostic * result (option (list ContentKey)) :=
  if negb (Py.truthy cdm_device_path) then ([InvalidDevicePath], Ok None)
  else
    match with_session w with
    | (log, Ok v) => (log, Ok v)
    | (log, Raise _) => (log ++ [CdmFailure], Ok None)   (* except Exception *)
    end.

End Widevine.

(** * Specification-side definitions *)

(** ** Text *)

Module TextSpec.

(** Every character of a text passes a test. *)
Fixpoint all_chars (P : ascii → bool) (s : string) : bool :=
  match s with
  | String c s' => P c && all_chars P s'
  | EmptyString => true
  end.

End TextSpec.

(** ** URL templates *)

Module TemplateSpec.
Import TextSpec.

(** The digits [N] of a placeholder [$Number%0Nd$]. *)
Definition is_width (ds : string) : Prop :=
  ds ≠ "" ∧ all_chars Py.is_digit ds = true.

Definition formatted (ds : string) : string := "$Number%0" +:+ ds +:+ "d$".

(** A placeholder for the number starts the text. *)
Definition number_at_head (s : string) : Prop :=
  (∃ rest, s = "$Number$" +:+ rest)
  ∨ (∃ ds rest, is_width ds ∧ s = formatted ds +:+ rest).

End TemplateSpec.

(** ** Segment timelines *)

Module TimelineSpec.
Import SegmentTimelineParser.

(** An [S] element as the decoder reads it: without [d], or a run
    with its duration, its repeat count ([0] when [r] is absent) and
    its start time when [t] is given. *)
Inductive S_view : Type :=
| NoDuration
| Run (d r : Z) (t : option Z).

Definition attr_int (e : Element) (key : string) : result (option Z) :=
  match ET.get e key with
  | Some x => let* n := Py.int x in Ok (Some n)
  | None => Ok None
  end.

Definition view (s : Element) : result S_view :=
  match ET.get s "d" with
  | None => Ok NoDuration
  | Some d =>
      let* d := Py.int d in
      let* r := attr_int s "r" in
      let* t := attr_int s "t" in
      Ok (Run d (default 0 r) t)
  end.

Fixpoint views (ss : list Element) : result (list S_view) :=
  match ss with
  | [] => Ok []
  | s :: ss' =>
      let* v := view s in
      let* vs := views ss' in
      Ok (v :: vs)
  end.

(** [k] values from [a] on, [step] apart. *)
Fixpoint run (a step : Z) (k : nat) : list Z :=
  match k with
  | O => []
  | S k' => a :: run (a + step) step k'
  end.

(** The time a run starts at. *)
Definition run_start (t : option Z) (st : state) : Z :=
  match t with
  | Some t => t
  | None => default 0 (current_time st)
  end.

(** What one [S] element does, in the words of the specification:
    nothing without [d]; otherwise [r + 1] entries, the segment
    number going up by 1 and the time by [d] at each. *)
Definition emit_view (st : state) (v : S_view) : state :=
  match v with
  | NoDuration => st
  | Run d r t =>
      let k := Z.to_nat (r + 1) in
      let c := run_start t st in
      {| number_list := number_list st ++ run (start_number st) 1 k;
         time_list := time_list st ++ run c d k;
         current_time := Some (c + Z.of_nat k * d);
         start_number := start_number st + Z.of_nat k |}
  end.

Definition decode (vs : list S_view) : list Z * list Z :=
  let st := foldl emit_view init vs in
  (number_list st, time_list st).

End TimelineSpec.


(** ** PSSH search *)

Module PsshSpec.



End PsshSpec.

(** ** Steady timelines *)

Module TimelineMoreSpec.
Import TimelineSpec.

(** The runs that keep the clock running: no [t], and a duration that
    is not negative. *)
Definition steady (v : S_view) : Prop :=
  match v with
  | NoDuration => True
  | Run d _ t => 0 ≤ d ∧ t = None
  end.

End TimelineMoreSpec.

(** ** Hexadecimal text *)

Module HexSpec.

Definition unhex_digit (c : ascii) : option N :=
  let n := N_of_ascii c in
  (if (48 <=? n) && (n <=? 57) then Some (n - 48)
   else if (97 <=? n) && (n <=? 102) then Some (n - 87)
   else None)%N.

(** The bytes a text of lowercase hex digits stands for. *)
Fixpoint unhex (s : string) : option (list Byte.byte) :=
  match s with
  | EmptyString => Some []
  | String hi (String lo s') =>
      match unhex_digit hi, unhex_digit lo, unhex s' with
      | Some h, Some l, Some b =>
          match Byte.of_N (16 * h + l) with
          | Some x => Some (x :: b)
          | None => None
          end
      | _, _, _ => None
      end
  | String _ EmptyString => None
  end.

End HexSpec.

(** ** License exchange *)

Module WidevineSpec.
Import Widevine TextSpec.

(** The bytes behind a field that is [bytes] or a UUID. *)
Definition raw (v : value) : option (list Byte.byte) :=
  match v with
  | Bytes b | UUID b => Some b
  | Other _ => None
  end.

Definition is_lower_hex (c : ascii) : bool :=
  let n := nat_of_ascii c in
  ((48 <=? n) && (n <=? 57) || (97 <=? n) && (n <=? 102))%nat.

Definition is_content (k : Key) : bool := bool_decide (type k = "CONTENT").

Definition to_content_key (k : Key) : ContentKey :=
  {| ck_kid := normalize (hex_or_str (kid k));
     ck_key := normalize (hex_or_str (key k)) |}.

(** A license exchange that succeeds and leaves [keys] in the
    session: every step of the protocol goes through, the status is
    200 and the license is not empty. *)
Definition successful (w : world) (keys : list Key) : Prop :=
  open_session w = Ok ()
  ∧ get_license_challenge w = Ok ()
  ∧ (∃ response bytes,
       post w = Ok response
       ∧ status_code response = 200
       ∧ license_of w response = inr bytes
       ∧ bytes ≠ []
       ∧ parse_license w bytes = Ok ())
  ∧ get_keys w = Ok keys
  ∧ close w = Ok ().

End WidevineSpec.

(** ** Selection *)

Module SelectionSpec.

(** The language tag of a representation matches a preferred tag, up
    to case. *)
Definition tag_matches (rep : Representation) (lang : string) : Prop :=
  Py.lower (Rep.language rep) = Py.lower lang.

(** The same with an empty tag standing for the literal [None]. *)
Definition shown_tag_matches (rep : Representation) (lang : string) : Prop :=
  Py.lower (MPDParser.language_or_none rep) = Py.lower lang.


End SelectionSpec.

(** ** Fetching *)

Module FetchSpec.
Import MPDParser.

(** An attempt fails: the body of the [try] block raises. *)
Definition fails (r : reply) : Prop := ∃ e, attempt_once r = Raise e.

(** The failure is one of transport or of status. *)
Definition transport_or_status (r : reply) : Prop :=
  attempt_once r = Raise RequestError ∨ attempt_once r = Raise HTTPError.

(** The object after the retry diagnostics of the attempts [a], ...,
    [a + k - 1]. *)
Definition after_retries (max_retry : Z) (self : t) (a k : nat) : t :=
  foldl (λ s i, print s (retry_message i max_retry)) self (seq a k).

End FetchSpec.

(** ** Example data *)

Module Examples.

Definition dash : string := "urn:mpeg:dash:schema:mpd:2011".

Definition ns : gmap string string :=
  {[ "mpd" := dash; "cenc" := "urn:mpeg:cenc:2013" ]}.

Definition S_ (a : gmap string string) : Element :=
  Elem "{urn:mpeg:dash:schema:mpd:2011}S" a None [].

(** [S] runs [{d:10, r:2, t:0}, {d:5, r:0}]. *)
Definition timeline : Element :=
  Elem "{urn:mpeg:dash:schema:mpd:2011}SegmentTimeline" ∅ None
    [S_ {[ "d" := "10"; "r" := "2"; "t" := "0" ]};
     S_ {[ "d" := "5"; "r" := "0" ]}].

(** A manifest whose root tag carries no namespace. *)
Definition plain_root : Element :=
  Elem "MPD" ∅ None
    [Elem "ContentProtection" ∅ None [Elem "pssh" ∅ (Some "AAAAOnBzc2g=") []]].

(** The same manifest in the DASH namespace. *)
Definition dash_root : Element :=
  Elem "{urn:mpeg:dash:schema:mpd:2011}MPD" ∅ None
    [Elem "{urn:mpeg:dash:schema:mpd:2011}ContentProtection" ∅ None
       [Elem "{urn:mpeg:cenc:2013}pssh" ∅ (Some "AAAAOnBzc2g=") []]].

Definition mpd_url : string := "http://host/a/manifest.mpd".

(** A stand-in for [urljoin]: a relative reference under a base that
    ends with a slash. *)
Definition concat_join (base url : string) : string := base +:+ url.

Definition base_url : string := "http://host/a/".

Definition template (a : gmap string string) (cs : list Element) : Element :=
  Elem "{urn:mpeg:dash:schema:mpd:2011}SegmentTemplate" a None cs.

Definition representation (cs : list Element) : Element :=
  Elem "{urn:mpeg:dash:schema:mpd:2011}Representation"
    {[ "id" := "v1"; "bandwidth" := "5000"; "width" := "1920"; "height" := "1080" ]}
    None cs.

Definition adaptation_set (cs : list Element) : Element :=
  Elem "{urn:mpeg:dash:schema:mpd:2011}AdaptationSet"
    {[ "mimeType" := "video/mp4" ]} None cs.

(** A [$Time$] template over the timeline of four segments. *)
Definition rep_time : Element :=
  representation [template {[ "media" := "seg-$Time$.m4s" ]} [timeline]].

(** A template without placeholder over the same timeline. *)
Definition rep_plain : Element :=
  representation [template {[ "media" := "seg.mp4" ]} [timeline]].

(** A [$Time$] template without timeline. *)
Definition rep_time_only : Element :=
  representation [template {[ "media" := "seg-$Time$.m4s"; "startNumber" := "5" ]} []].

(** A CDM double: a JSON response with a [license] field, and a
    session with one CONTENT key and one SIGNING key. *)
Definition kid1 : list Byte.byte :=
  [Byte.x00; Byte.x11; Byte.x22; Byte.x33; Byte.x44; Byte.x55; Byte.x66; Byte.x77;
   Byte.x88; Byte.x99; Byte.xaa; Byte.xbb; Byte.xcc; Byte.xdd; Byte.xee; Byte.xff].

Definition key1 : list Byte.byte :=
  [Byte.xde; Byte.xad; Byte.xbe; Byte.xef; Byte.x01; Byte.x02; Byte.x03; Byte.x04;
   Byte.x05; Byte.x06; Byte.x07; Byte.x08; Byte.x09; Byte.x0a; Byte.x0b; Byte.x0c].

Definition session_keys : list Widevine.Key :=
  [Widevine.MkKey "CONTENT" (Widevine.UUID kid1) (Widevine.Bytes key1);
   Widevine.MkKey "SIGNING" (Widevine.UUID key1) (Widevine.Bytes kid1)].

Definition cdm_double (keys : list Widevine.Key) : Widevine.world :=
  {| Widevine.open_session := Ok ();
     Widevine.get_license_challenge := Ok ();
     Widevine.post :=
       Ok {| Widevine.status_code := 200;
             Widevine.content := [];
             Widevine.content_type := Some "application/json; charset=utf-8";
             Widevine.json := Ok {[ "license" := "CAIS" ]} |};
     Widevine.b64decode := λ _, Ok [Byte.x08; Byte.x02; Byte.x12];
     Widevine.parse_license := λ _, Ok ();
     Widevine.get_keys := Ok keys;
     Widevine.close := Ok () |}.

Definition rep (ty lang : string) (h w bw : Z) : Representation :=
  {| Rep.id := None; Rep.type := ty; Rep.codec := None;
     Rep.bandwidth := bw; Rep.width := w; Rep.height := h;
     Rep.language := lang; Rep.init_url := None; Rep.segment_urls := [] |}.

Definition with_representations (l : list Representation) : MPDParser.t :=
  MPDParser.set_representations (MPDParser.new mpd_url) l.

Definition audio_en : Representation := rep "audio" "en" 0 0 64000.
Definition audio_fr : Representation := rep "audio" "fr" 0 0 128000.
Definition audio_untagged : Representation := rep "audio" "" 0 0 32000.

Definition video_a : Representation := rep "video" "" 1080 1920 5000.
Definition video_c : Representation := rep "video" "" 720 1280 8000.

(** A server that answers a malformed document first and the manifest
    afterwards. *)
Definition malformed_once (attempt : nat) : MPDParser.reply :=
  match attempt with
  | O => MPDParser.Reply false None
  | _ => MPDParser.Reply false (Some dash_root)
  end.

(** A server that is unreachable at first and answers afterwards. *)
Definition unreachable_once (attempt : nat) : MPDParser.reply :=
  match attempt with
  | O => MPDParser.NoReply
  | _ => MPDParser.Reply false (Some dash_root)
  end.

(** An audio representation of higher bandwidth than every video. *)
Definition audio_heavy : Representation := rep "audio" "en" 0 0 900000000.

Definition subtitles : Representation := rep "text" "en" 0 0 1000.

(** A Representation whose bandwidth is not an integer. *)
Definition rep_bad_bandwidth : Element :=
  Elem "{urn:mpeg:dash:schema:mpd:2011}Representation"
    {[ "id" := "v1"; "bandwidth" := "5000bps" ]} None
    [template {[ "media" := "seg-$Number$.m4s" ]} []].


(** The same double with a session that fails to close. *)
Definition cdm_close_fails (keys : list Widevine.Key) : Widevine.world :=
  {| Widevine.open_session := Ok ();
     Widevine.get_license_challenge := Ok ();
     Widevine.post := Widevine.post (cdm_double keys);
     Widevine.b64decode := Widevine.b64decode (cdm_double keys);
     Widevine.parse_license := Widevine.parse_license (cdm_double keys);
     Widevine.get_keys := Ok keys;
     Widevine.close := Raise CdmError |}.

End Examples.

(** * Theorems *)

(** ** The error monad *)

Lemma rbind_Ok {A B} (m : result A) (k : A → result B) (b : B) :
  rbind m k = Ok b → ∃ a, m = Ok a ∧ k a = Ok b.
Proof. destruct m as [a|e]; simpl; [eauto | discriminate]. Qed.

Tactic Notation "inv_bind" hyp(H) "as" ident(a) ident(Ha) :=
  apply rbind_Ok in H; destruct H as (a & Ha & H).

(** ** Segment timelines *)

Section Timeline.
Import SegmentTimelineParser TimelineSpec.

Lemma run_length a s k : length (run a s k) = k.
Proof. revert a; induction k as [|k IH]; intros a; simpl; [done | by rewrite IH]. Qed.

Lemma run_lookup a s k i :
  (i < k)%nat → run a s k !! i = Some (a + Z.of_nat i * s).
Proof.
  revert a i; induction k as [|k IH]; intros a [|i] Hi; simpl; try lia.
  - f_equal; lia.
  - rewrite IH by lia. f_equal; lia.
Qed.

Lemma emit_run k d nl tl ct sn :
  emit k d nl tl ct sn =
  {| number_list := nl ++ run sn 1 k;
     time_list := tl ++ run ct d k;
     current_time := Some (ct + Z.of_nat k * d);
     start_number := sn + Z.of_nat k |}.
Proof.
  revert nl tl ct sn; induction k as [|k IH]; intros nl tl ct sn.
  - simpl. rewrite !app_nil_r. f_equal; [f_equal|]; lia.
  - cbn [emit run]. rewrite IH, <- !app_assoc. simpl.
    f_equal; [f_equal|]; lia.
Qed.

Lemma step_view st s : step st s = let* v := view s in Ok (emit_view st v).
Proof.
  unfold step, view, attr_int.
  destruct (ET.get s "d") as [d|]; [|done].
  destruct (Py.int d) as [dz|]; [|done]; cbn [rbind].
  destruct (ET.get s "r") as [r|]; [destruct (Py.int r) as [rz|]; [|done]|];
    cbn [rbind default];
    (destruct (ET.get s "t") as [t|]; [destruct (Py.int t) as [tz|]; [|done]|]);
    cbn [rbind default]; by rewrite emit_run.
Qed.

Lemma loop_views st ss :
  loop st ss = let* vs := views ss in Ok (foldl emit_view st vs).
Proof.
  revert st; induction ss as [|s ss IH]; intros st; simpl; [done|].
  rewrite step_view. destruct (view s) as [v|e] eqn:Hv; simpl; [|done].
  rewrite IH. destruct (views ss) as [vs|e] eqn:Hvs; simpl; done.
Qed.

Lemma foldl_emit_lengths vs st :
  length (number_list st) = length (time_list st) →
  length (number_list (foldl emit_view st vs)) = length (time_list (foldl emit_view st vs)).
Proof.
  revert st; induction vs as [|v vs IH]; intros st Hst; simpl; [done|].
  apply IH. destruct v as [|d r t]; simpl; [done|].
  rewrite !length_app, !run_length. lia.
Qed.

Lemma parse_lengths ns tl nl tml :
  parse ns tl = Ok (nl, tml) → length nl = length tml.
Proof.
  destruct tl as [tl|]; simpl; [|by intros [= <- <-]].
  intros H. inv_bind H as ss Hss. rewrite loop_views in H.
  inv_bind H as st Hst. inv_bind Hst as vs Hvs.
  injection H as <- <-. injection Hst as <-.
  by apply foldl_emit_lengths.
Qed.

End Timeline.

Section TimelineClaim.
Import SegmentTimelineParser TimelineSpec.

(** C1.  For every SegmentTimeline element the decoder handles the [S]
    children in document order ([parse] is the fold of [emit_view] over
    them, from segment number 1 and no time).  An [S] element without
    [d] emits nothing and leaves the state as it is.  An [S] element
    with [d] emits [r + 1] entries ([r] defaulting to 0; the count of
    [range(r + 1)]): entry [i] appends the segment number
    [start_number + i] and the time [c + i * d], where [c] is the time
    the run starts at, and afterwards the segment number has advanced by
    the count and the time by the count times [d].  The runs
    [{d:10, r:2, t:0}, {d:5, r:0}] give numbers [1,2,3,4] and times
    [0,10,20,30]. *)
Theorem timeline_decode :
  (∀ ns tl,
     parse ns (Some tl) =
     let* ss := ET.findall tl ns "mpd" "S" in
     let* vs := views ss in
     Ok (decode vs))
  ∧ (∀ st s, ET.get s "d" = None → step st s = Ok st)
  ∧ (∀ st s d r t,
       view s = Ok (Run d r t) →
       ∃ numbers times,
         step st s =
           Ok {| number_list := number_list st ++ numbers;
                 time_list := time_list st ++ times;
                 current_time := Some (run_start t st + Z.of_nat (length times) * d);
                 start_number := start_number st + Z.of_nat (length numbers) |}
         ∧ length numbers = Z.to_nat (r + 1)
         ∧ length times = Z.to_nat (r + 1)
         ∧ (-1 ≤ r → Z.of_nat (length numbers) = r + 1)
         ∧ (∀ i, (i < Z.to_nat (r + 1))%nat →
              numbers !! i = Some (start_number st + Z.of_nat i)
              ∧ times !! i = Some (run_start t st + Z.of_nat i * d)))
  ∧ parse Examples.ns (Some Examples.timeline) = Ok ([1; 2; 3; 4], [0; 10; 20; 30]).
Proof.
  split; [|split; [|split]].
  - intros ns tl. unfold parse, decode.
    destruct (ET.findall tl ns "mpd" "S") as [ss|e]; [|done]; cbn [rbind].
    rewrite loop_views. by destruct (views ss).
  - intros st s Hd. unfold step. by rewrite Hd.
  - intros st s d r t Hv.
    exists (run (start_number st) 1 (Z.to_nat (r + 1))),
           (run (run_start t st) d (Z.to_nat (r + 1))).
    rewrite step_view, Hv. cbn [rbind emit_view]. rewrite !run_length.
    split; [done|]. split; [done|]. split; [done|]. split; [lia|].
    intros i Hi. rewrite !run_lookup by done. split; f_equal; lia.
  - by vm_compute.
Qed.

(** C1 at the first run of the example, [{d:10, r:2, t:0}]: it emits
    three entries and leaves the segment number at 4 and the time at 30. *)
Lemma timeline_decode_witness :
  ∃ numbers times,
    step init (Examples.S_ {[ "d" := "10"; "r" := "2"; "t" := "0" ]}) =
      Ok {| number_list := numbers; time_list := times;
            current_time := Some 30; start_number := 4 |}
    ∧ Z.of_nat (length numbers) = 3.
Proof.
  assert (Hv : view (Examples.S_ {[ "d" := "10"; "r" := "2"; "t" := "0" ]})
               = Ok (Run 10 2 (Some 0))) by (vm_compute; reflexivity).
  destruct (proj1 (proj2 (proj2 timeline_decode)) init _ 10 2 (Some 0) Hv)
    as (numbers & times & Hstep & Hn & Ht & Hr & _).
  exists numbers, times. split.
  - rewrite Hstep, Ht, Hn. reflexivity.
  - rewrite (Hr ltac:(lia)). reflexivity.
Defined.

End TimelineClaim.

(** ** Text *)

Section Text.
Import TextSpec.

Lemma app_String c s t : String c s +:+ t = String c (s +:+ t).
Proof. reflexivity. Qed.

Lemma app_empty_l t : "" +:+ t = t.
Proof. reflexivity. Qed.

Lemma app_empty_r s : s +:+ "" = s.
Proof. induction s as [|c s IH]; [done|]. by rewrite app_String, IH. Qed.

Lemma app_assoc_s s t u : (s +:+ t) +:+ u = s +:+ (t +:+ u).
Proof. induction s as [|c s IH]; [done|]. by rewrite !app_String, IH. Qed.

Lemma app_length_s s t :
  String.length (s +:+ t) = (String.length s + String.length t)%nat.
Proof. induction s as [|c s IH]; [done|]. rewrite app_String. simpl. by rewrite IH. Qed.

Lemma split1_None c s : Py.has_char c s = false → Py.split1 c s = None.
Proof.
  induction s as [|a s IH]; simpl; [done|].
  case_decide; [done|]. intros Hs. by rewrite IH.
Qed.

Lemma split1_Some c s l r :
  Py.split1 c s = Some (l, r) → s = l +:+ String c r ∧ Py.has_char c l = false.
Proof.
  revert l; induction s as [|a s IH]; intros l; simpl; [done|].
  case_decide as Hac.
  - intros [= <- <-]. by subst.
  - destruct (Py.split1 c s) as [[l' r']|]; [|done].
    intros [= <- <-]. destruct (IH l' eq_refl) as [-> Hl].
    split; [done|]. simpl. by case_decide.
Qed.

Lemma split1_app c l r :
  Py.has_char c l = false → Py.split1 c (l +:+ String c r) = Some (l, r).
Proof.
  induction l as [|a l IH]; simpl.
  - intros _. rewrite ?app_empty_l. simpl. by case_decide.
  - rewrite ?app_String. simpl. case_decide; [done|]. intros Hl. by rewrite IH.
Qed.

Lemma has_char_app c s t :
  Py.has_char c (s +:+ t) = Py.has_char c s || Py.has_char c t.
Proof.
  induction s as [|a s IH]; [done|]. rewrite app_String. simpl.
  by case_decide.
Qed.

Lemma all_chars_impl (P Q : ascii → bool) s :
  (∀ c, P c = true → Q c = true) → all_chars P s = true → all_chars Q s = true.
Proof.
  intros HPQ. induction s as [|c s IH]; simpl; [done|].
  intros [Hc Hs]%andb_true_iff. by rewrite (HPQ _ Hc), IH.
Qed.

Lemma lstrip_id s : all_chars (λ c, negb (Py.is_space c)) s = true → Py.lstrip s = s.
Proof.
  destruct s as [|c s]; [done|]. simpl. intros [Hc _]%andb_true_iff.
  by destruct (Py.is_space c).
Qed.

Lemma rstrip_id s : all_chars (λ c, negb (Py.is_space c)) s = true → Py.rstrip s = s.
Proof.
  induction s as [|c s IH]; [done|]. simpl. intros [Hc Hs]%andb_true_iff.
  rewrite IH by done. destruct s; [|done]. by destruct (Py.is_space c).
Qed.

End Text.

(** ** Namespaces and PSSH *)

Section Namespace.
Import MPDParser PsshSpec.

Lemma findall_registered e m prefix uri name :
  m !! prefix = Some uri →
  ET.findall e m prefix name =
  Ok (base.filter (λ c, ET.has_tag ("{" +:+ uri +:+ "}" +:+ name) c = true) (children e)).
Proof. intros H. unfold ET.findall, ET.qname. by rewrite H. Qed.


Lemma find_registered e m prefix uri name :
  m !! prefix = Some uri →
  ET.find e m prefix name =
  Ok (head (base.filter (λ c, ET.has_tag ("{" +:+ uri +:+ "}" +:+ name) c = true)
              (children e))).
Proof. intros H. unfold ET.find. by rewrite (findall_registered _ _ _ _ _ H). Qed.

Lemma find_unregistered e m prefix name :
  m !! prefix = None → ET.find e m prefix name = Raise SyntaxError.
Proof. intros H. unfold ET.find, ET.findall, ET.qname. by rewrite H. Qed.






End Namespace.

(** ** Segment URLs *)

Section SegmentUrls.
Import RepresentationParser.

Variable urljoin : string → string → string.
Variable ns : gmap string string.

Lemma range_length a n : length (range a n) = n.
Proof. unfold range. by rewrite length_fmap, length_seq. Qed.

Lemma range_nonempty a n : n ≠ 0%nat → range a n ≠ [].
Proof. intros Hn Hr. apply Hn. by rewrite <- (range_length a n), Hr. Qed.

Lemma media_urls_falsy media base rep_id bandwidth nl tl :
  Py.truthy media = false →
  _build_media_urls urljoin media base rep_id bandwidth nl tl = Ok [].
Proof. intros H. unfold _build_media_urls. by rewrite H. Qed.

Lemma media_urls_cases media base rep_id bandwidth nl tl urls :
  Py.truthy (Some media) = true →
  _build_media_urls urljoin (Some media) base rep_id bandwidth nl tl = Ok urls →
  ∃ bw,
    int_or_none bandwidth = Ok bw
    ∧ urls =
        if Py.contains "$Time$" media && negb (bool_decide (tl = [])) then
          (λ t, URLBuilder.build_url urljoin base (Some media) rep_id None (Some t) bw) <$> tl
        else if Py.contains "$Number" media && negb (bool_decide (nl = [])) then
          (λ n, URLBuilder.build_url urljoin base (Some media) rep_id (Some n) None bw) <$> nl
        else [URLBuilder.build_url urljoin base (Some media) rep_id None None bw].
Proof.
  intros Hm. unfold _build_media_urls. rewrite Hm. cbn [negb default].
  destruct (int_or_none bandwidth) as [bw|e]; [|done]. cbn [rbind].
  intros H. exists bw. split; [done|].
  destruct (_ && _); [by injection H|].
  destruct (_ && _); by injection H.
Qed.

Lemma build_segment_urls_inv seg_tmpl rep_id bandwidth base init_url media_urls :
  _build_segment_urls urljoin ns seg_tmpl rep_id bandwidth base = Ok (init_url, media_urls) →
  ∃ start timeline numbers times,
    match ET.get seg_tmpl "startNumber" with
    | Some s => Py.int s
    | None => Ok 1
    end = Ok start
    ∧ ET.find seg_tmpl ns "mpd" "SegmentTimeline" = Ok timeline
    ∧ SegmentTimelineParser.parse ns timeline = Ok (numbers, times)
    ∧ _build_media_urls urljoin (ET.get seg_tmpl "media") base rep_id bandwidth
        (if bool_decide (numbers = []) then range start 100 else numbers) times
      = Ok media_urls.
Proof.
  unfold _build_segment_urls. intros H.
  inv_bind H as start Hstart. inv_bind H as iu Hiu.
  inv_bind H as timeline Htl. inv_bind H as p Hp. destruct p as [numbers times].
  inv_bind H as urls Hurls. injection H as <- <-.
  by exists start, timeline, numbers, times.
Qed.

Lemma parse_representation_inv rep_element adapt_set adapt_seg_template
    base_url mime_type lang rep :
  _parse_representation urljoin ns rep_element adapt_set adapt_seg_template
    base_url mime_type lang = Ok (Some rep) →
  ∃ rep_tmpl seg_tmpl rep_base_url,
    ET.find rep_element ns "mpd" "SegmentTemplate" = Ok rep_tmpl
    ∧ match rep_tmpl with Some e => Some e | None => adapt_seg_template end = Some seg_tmpl
    ∧ _resolve_base_url urljoin ns rep_element adapt_set base_url = Ok rep_base_url
    ∧ _build_segment_urls urljoin ns seg_tmpl (ET.get rep_element "id")
        (ET.get rep_element "bandwidth") rep_base_url
      = Ok (Rep.init_url rep, Rep.segment_urls rep).
Proof.
  unfold _parse_representation. intros H.
  inv_bind H as rep_tmpl Htmpl.
  destruct (match rep_tmpl with Some e => Some e | None => adapt_seg_template end)
    as [seg_tmpl|] eqn:Hsel; [|done].
  inv_bind H as rep_base_url Hbase. inv_bind H as p Hp. destruct p as [iu urls].
  inv_bind H as bw Hbw. inv_bind H as w Hw. inv_bind H as h Hh.
  injection H as <-. cbn [Rep.init_url Rep.segment_urls].
  by exists rep_tmpl, seg_tmpl, rep_base_url.
Qed.

(** C3, as amended.  For every parsed Representation, with the numbers
    and times decoded from the SegmentTimeline of its SegmentTemplate
    (two lists of one length):
    - when the media template contains [$Time$] or [$Number] and the
      decoded timeline is not empty, [segment_urls] has the length of
      the decoded timeline;
    - when the decoded timeline is empty (no timeline is present) and
      the media template contains [$Number], [segment_urls] holds the
      URLs built for the 100 consecutive numbers from the template's
      [startNumber] on;
    - a media template with neither placeholder, or with [$Time$] only
      and no timeline, gives exactly one URL;
    - without a media template there is no URL. *)
Theorem segment_urls_policy rep_element adapt_set adapt_seg_template
    base_url mime_type lang rep :
  _parse_representation urljoin ns rep_element adapt_set adapt_seg_template
    base_url mime_type lang = Ok (Some rep) →
  ∃ rep_tmpl seg_tmpl timeline numbers times start,
    ET.find rep_element ns "mpd" "SegmentTemplate" = Ok rep_tmpl
    ∧ match rep_tmpl with Some e => Some e | None => adapt_seg_template end = Some seg_tmpl
    ∧ ET.find seg_tmpl ns "mpd" "SegmentTimeline" = Ok timeline
    ∧ SegmentTimelineParser.parse ns timeline = Ok (numbers, times)
    ∧ length numbers = length times
    ∧ match ET.get seg_tmpl "startNumber" with
      | Some s => Py.int s
      | None => Ok 1
      end = Ok start
    ∧ match ET.get seg_tmpl "media" with
      | Some (String c m) =>
          let media := String c m in
          if Py.contains "$Time$" media || Py.contains "$Number" media then
            if bool_decide (numbers = []) then
              if Py.contains "$Number" media then
                length (Rep.segment_urls rep) = 100%nat
                ∧ ∃ base bw,
                    Rep.segment_urls rep =
                    (λ n, URLBuilder.build_url urljoin base (Some media)
                            (ET.get rep_element "id") (Some n) None bw)
                      <$> range start 100
              else length (Rep.segment_urls rep) = 1%nat
            else length (Rep.segment_urls rep) = length numbers
          else length (Rep.segment_urls rep) = 1%nat
      | _ => Rep.segment_urls rep = []
      end.
Proof.
  intros H.
  destruct (parse_representation_inv _ _ _ _ _ _ _ H)
    as (rep_tmpl & seg_tmpl & rep_base_url & Htmpl & Hsel & _ & Hbuild).
  destruct (build_segment_urls_inv _ _ _ _ _ _ Hbuild)
    as (start & timeline & numbers & times & Hstart & Htl & Hparse & Hurls).
  pose proof (parse_lengths _ _ _ _ Hparse) as Hlen.
  exists rep_tmpl, seg_tmpl, timeline, numbers, times, start.
  do 6 (split; [done|]).
  destruct (ET.get seg_tmpl "media") as [[|c m]|] eqn:Hmedia.
  - rewrite media_urls_falsy in Hurls by done. by injection Hurls.
  - apply media_urls_cases in Hurls; [|done].
    destruct Hurls as (bw & _ & ->). cbn zeta.
    destruct numbers as [|n numbers], times as [|t times]; try discriminate Hlen.
    + rewrite !(bool_decide_eq_true_2 (@nil Z = [])) by done.
      rewrite (bool_decide_eq_false_2 (range start 100 = [])) by (by apply range_nonempty).
      destruct (Py.contains "$Time$" (String c m)),
        (Py.contains "$Number" (String c m)); cbn [orb andb negb];
        rewrite ?length_fmap, ?range_length; try done;
        (split; [done|]; by exists rep_base_url, bw).
    + rewrite !(bool_decide_eq_false_2 (_ :: _ = [])) by done.
      destruct (Py.contains "$Time$" (String c m)),
        (Py.contains "$Number" (String c m)); cbn [orb andb negb];
        rewrite ?length_fmap; try done; by rewrite Hlen.
  - rewrite media_urls_falsy in Hurls by done. by injection Hurls.
Qed.

End SegmentUrls.

(** C3 at a Representation with a [$Time$] template over the timeline
    of four segments. *)
Lemma segment_urls_policy_witness :
  ∃ rep numbers times,
    RepresentationParser._parse_representation Examples.concat_join Examples.ns
      Examples.rep_time (Examples.adaptation_set [Examples.rep_time]) None
      Examples.base_url "video/mp4" "" = Ok (Some rep)
    ∧ SegmentTimelineParser.parse Examples.ns
        (Some Examples.timeline) = Ok (numbers, times)
    ∧ length numbers = length times.
Proof.
  assert (Hp : ∃ rep,
             RepresentationParser._parse_representation Examples.concat_join Examples.ns
               Examples.rep_time (Examples.adaptation_set [Examples.rep_time]) None
               Examples.base_url "video/mp4" "" = Ok (Some rep))
    by (vm_compute; eexists; reflexivity).
  destruct Hp as [rep Hp].
  destruct (segment_urls_policy _ _ _ _ _ _ _ _ _ Hp)
    as (rep_tmpl & seg_tmpl & tl & numbers & times & start
        & Htmpl & Hsel & Htl & Hparse & Hlen & _).
  assert (Hfind : ET.find Examples.rep_time Examples.ns "mpd" "SegmentTemplate"
                  = Ok (Some (Examples.template {[ "media" := "seg-$Time$.m4s" ]}
                                [Examples.timeline])))
    by (vm_compute; reflexivity).
  rewrite Hfind in Htmpl. injection Htmpl as <-. injection Hsel as <-.
  assert (Hfind2 : ET.find (Examples.template {[ "media" := "seg-$Time$.m4s" ]}
                              [Examples.timeline]) Examples.ns "mpd" "SegmentTimeline"
                   = Ok (Some Examples.timeline))
    by (vm_compute; reflexivity).
  rewrite Hfind2 in Htl. injection Htl as <-.
  exists rep, numbers, times. split; [exact Hp|]. split; [exact Hparse|exact Hlen].
Defined.

(** C3 as stated fails at templates without [$Number]: over a timeline
    of four segments a template without placeholder gives one URL, and
    without a timeline a [$Time$] template gives one URL, not those of
    100 numbers. *)
Lemma segment_urls_policy_counterexample :
  (∃ rep,
     RepresentationParser._parse_representation Examples.concat_join Examples.ns
       Examples.rep_plain (Examples.adaptation_set [Examples.rep_plain]) None
       Examples.base_url "video/mp4" "" = Ok (Some rep)
     ∧ SegmentTimelineParser.parse Examples.ns (Some Examples.timeline)
       = Ok ([1; 2; 3; 4], [0; 10; 20; 30])
     ∧ Rep.segment_urls rep = [Some "http://host/a/seg.mp4"]
     ∧ length (Rep.segment_urls rep) ≠ length [1; 2; 3; 4])
  ∧ (∃ rep,
       RepresentationParser._parse_representation Examples.concat_join Examples.ns
         Examples.rep_time_only (Examples.adaptation_set [Examples.rep_time_only]) None
         Examples.base_url "video/mp4" "" = Ok (Some rep)
       ∧ Rep.segment_urls rep = [Some "http://host/a/seg-$Time$.m4s"]
       ∧ length (Rep.segment_urls rep) ≠ 100%nat).
Proof.
  split; vm_compute; eexists; repeat split; discriminate.
Qed.

(** ** License keys *)

Section LicenseKeys.
Import Widevine WidevineSpec TextSpec.

Lemma take_drop n s : Py.take n s +:+ Py.drop n s = s.
Proof.
  revert s; induction n as [|n IH]; intros [|c s]; try done.
  cbn [Py.take Py.drop]. by rewrite app_String, IH.
Qed.

Lemma replace_dash_cons c s :
  Py.replace "-" "" (String c s) =
  if decide ("-"%char = c) then Py.replace "-" "" s else String c (Py.replace "-" "" s).
Proof. unfold Py.replace. cbn. by case_decide. Qed.

Lemma replace_dash_app s t :
  Py.replace "-" "" (s +:+ t) = Py.replace "-" "" s +:+ Py.replace "-" "" t.
Proof.
  induction s as [|c s IH]; [done|].
  rewrite app_String, !replace_dash_cons. case_decide; [done|].
  by rewrite app_String, IH.
Qed.

Lemma replace_dash_id s :
  all_chars (λ c, negb (bool_decide ("-"%char = c))) s = true → Py.replace "-" "" s = s.
Proof.
  induction s as [|c s IH]; [done|]. simpl.
  intros [Hc Hs]%andb_true_iff. rewrite replace_dash_cons.
  case_decide as Hd; [by rewrite bool_decide_eq_true_2 in Hc|]. by rewrite IH.
Qed.

Lemma is_lower_hex_plain c :
  is_lower_hex c = true →
  negb (Py.is_space c) = true ∧ negb (bool_decide ("-"%char = c)) = true.
Proof. destruct c as [[] [] [] [] [] [] [] []]; by vm_compute. Qed.

Lemma hex_digit_lower n : (n < 16)%N → is_lower_hex (hex_digit n) = true.
Proof.
  intros Hn.
  assert (Hcases : n ∈ (N.of_nat <$> seq 0 16)).
  { apply list_elem_of_fmap. exists (N.to_nat n). split; [lia|].
    apply elem_of_seq. lia. }
  cbn in Hcases. set_unfold. by repeat destruct Hcases as [->|Hcases].
Qed.

Lemma hex_lower b : all_chars is_lower_hex (hex b) = true.
Proof.
  induction b as [|x b IH]; [done|]. cbn [hex all_chars].
  rewrite !hex_digit_lower, IH; [done| |].
  - apply N.mod_lt. done.
  - apply N.Div0.div_lt_upper_bound. pose proof (Byte.to_N_bounded x). lia.
Qed.

Lemma normalize_hex b : normalize (hex b) = hex b.
Proof.
  unfold normalize, Py.strip.
  rewrite replace_dash_id
    by (eapply all_chars_impl; [|apply hex_lower]; intros c; apply is_lower_hex_plain).
  assert (Hs : all_chars (λ c, negb (Py.is_space c)) (hex b) = true)
    by (eapply all_chars_impl; [|apply hex_lower]; intros c; apply is_lower_hex_plain).
  by rewrite lstrip_id, rstrip_id.
Qed.

Lemma uuid_str_dashes b : Py.replace "-" "" (uuid_str b) = Py.replace "-" "" (hex b).
Proof.
  unfold uuid_str, Py.slice. set (h := hex b).
  rewrite !replace_dash_app. change (Py.replace "-" "" "-") with "".
  rewrite !app_empty_l, <- !replace_dash_app. f_equal.
  change (Py.drop 0 h) with h. cbn [Nat.sub].
  assert (Hd : ∀ a k s, Py.drop k (Py.drop a s) = Py.drop (a + k) s).
  { intros a k s. revert s; induction a as [|a IH]; intros [|c s]; try done.
    - by destruct k.
    - cbn. apply IH. }
  assert (E20 : Py.drop 20 h = Py.drop 4 (Py.drop 16 h)) by (by rewrite Hd).
  assert (E16 : Py.drop 16 h = Py.drop 4 (Py.drop 12 h)) by (by rewrite Hd).
  assert (E12 : Py.drop 12 h = Py.drop 4 (Py.drop 8 h)) by (by rewrite Hd).
  by rewrite E20, take_drop, E16, take_drop, E12, !take_drop.
Qed.

Lemma normalize_raw v b : raw v = Some b → normalize (hex_or_str v) = hex b.
Proof.
  destruct v as [b'|b'|s]; intros [= <-]; cbn [hex_or_str]; [apply normalize_hex|].
  unfold normalize. rewrite uuid_str_dashes. apply normalize_hex.
Qed.

Lemma content_keys_filter keys :
  content_keys keys = to_content_key <$> base.filter (λ k, is_content k = true) keys.
Proof.
  induction keys as [|k keys IH]; [done|]. cbn [content_keys].
  rewrite filter_cons. destruct (decide (is_content k = true)) as [Hk|Hk].
  - unfold is_content in Hk. by rewrite Hk, fmap_cons, IH.
  - unfold is_content in Hk. apply not_true_is_false in Hk. by rewrite Hk.
Qed.

(** C4.  After a successful license exchange the extractor returns the
    keys of type CONTENT, in session order, and no other; a key-ID or
    key value that is [bytes] or a UUID comes out as the lowercase hex
    digits of its bytes, without separator; with no CONTENT key the
    result is [None] after one warning.  No exception leaves the
    function.  With one CONTENT and one SIGNING key in the session, the
    CONTENT key alone is returned. *)
Theorem content_keys_only :
  (∀ path w keys,
     Py.truthy path = true →
     successful w keys →
     get_widevine_keys path w =
     match base.filter (λ k, type k = "CONTENT") keys with
     | [] => ([NoContentKeys], Ok None)
     | ks => ([], Ok (Some (to_content_key <$> ks)))
     end)
  ∧ (∀ k b1 b2,
       raw (kid k) = Some b1 →
       raw (key k) = Some b2 →
       to_content_key k = {| ck_kid := hex b1; ck_key := hex b2 |}
       ∧ all_chars is_lower_hex (hex b1) = true
       ∧ all_chars is_lower_hex (hex b2) = true)
  ∧ (∀ path w, ∃ r, (get_widevine_keys path w).2 = Ok r)
  ∧ get_widevine_keys (Some "device.wvd") (Examples.cdm_double Examples.session_keys)
    = ([], Ok (Some [{| ck_kid := "00112233445566778899aabbccddeeff";
                       ck_key := "deadbeef0102030405060708090a0b0c" |}]))
  ∧ get_widevine_keys (Some "device.wvd")
      (Examples.cdm_double
         [MkKey "SIGNING" (UUID Examples.kid1) (Bytes Examples.key1);
          MkKey "OPERATOR_SESSION" (UUID Examples.key1) (Bytes Examples.kid1)])
    = ([NoContentKeys], Ok None).
Proof.
  split; [|split; [|split; [|split]]].
  - intros path w keys Hpath
      (Hopen & Hch & (response & bytes & Hpost & Hst & Hlic & Hne & Hparse) & Hkeys & Hclose).
    unfold get_widevine_keys, with_session, exchange.
    rewrite Hpath, Hopen, Hch, Hpost, Hst, Hlic. cbn [negb rbind Z.eqb Pos.eqb].
    destruct bytes as [|x bytes]; [done|].
    rewrite Hparse, Hkeys, Hclose. cbn [rbind].
    rewrite content_keys_filter.
    assert (Hf : base.filter (λ k, is_content k = true) keys
                 = base.filter (λ k, type k = "CONTENT") keys).
    { apply list_filter_iff. intros k. unfold is_content.
      apply bool_decide_eq_true. }
    rewrite Hf. by destruct (base.filter (λ k, type k = "CONTENT") keys).
  - intros k b1 b2 H1 H2. unfold to_content_key.
    rewrite (normalize_raw _ _ H1), (normalize_raw _ _ H2).
    by rewrite !hex_lower.
  - intros path w. unfold get_widevine_keys.
    destruct (negb (Py.truthy path)); [by eexists|].
    destruct (with_session w) as [log [v|e]]; by eexists.
  - by vm_compute.
  - by vm_compute.
Qed.

(** C4 at the CDM double of the example. *)
Lemma content_keys_only_witness :
  get_widevine_keys (Some "device.wvd") (Examples.cdm_double Examples.session_keys)
  = match base.filter (λ k, type k = "CONTENT") Examples.session_keys with
    | [] => ([NoContentKeys], Ok None)
    | ks => ([], Ok (Some (to_content_key <$> ks)))
    end.
Proof.
  apply (proj1 content_keys_only); [reflexivity|].
  unfold successful. split; [reflexivity|]. split; [reflexivity|].
  split; [|split; reflexivity].
  eexists _, [Byte.x08; Byte.x02; Byte.x12].
  split; [reflexivity|]. split; [reflexivity|]. split; [by vm_compute|].
  split; [discriminate|reflexivity].
Defined.

End LicenseKeys.

(** ** Extrema as Python's [max] and [min] find them *)

Section Extremum.
Context {A K : Type} (lt : K → K → bool) (le : K → K → Prop) (key : A → K).
Hypothesis le_refl : ∀ a, le a a.
Hypothesis le_trans : ∀ a b c, le a b → le b c → le a c.
Hypothesis lt_le : ∀ a b, lt a b = true → le a b.
Hypothesis not_lt_le : ∀ a b, lt a b = false → le b a.

Lemma max_from_in best l : MPDParser.max_from lt key best l ∈ best :: l.
Proof.
  revert best; induction l as [|x l IH]; intros best; simpl.
  - apply elem_of_cons; auto.
  - pose proof (IH (if lt (key best) (key x) then x else best)) as H.
    apply elem_of_cons in H as [H|H]; rewrite !elem_of_cons; [|auto].
    rewrite H. destruct (lt (key best) (key x)); auto.
Qed.

Lemma min_from_in best l : MPDParser.min_from lt key best l ∈ best :: l.
Proof.
  revert best; induction l as [|x l IH]; intros best; simpl.
  - apply elem_of_cons; auto.
  - pose proof (IH (if lt (key x) (key best) then x else best)) as H.
    apply elem_of_cons in H as [H|H]; rewrite !elem_of_cons; [|auto].
    rewrite H. destruct (lt (key x) (key best)); auto.
Qed.

Lemma max_from_upper best l x :
  x ∈ best :: l → le (key x) (key (MPDParser.max_from lt key best l)).
Proof.
  revert best x; induction l as [|y l IH]; intros best x Hx; simpl.
  - apply elem_of_cons in Hx as [->|Hx]; [apply le_refl|]. by apply elem_of_nil in Hx.
  - assert (Hhead : ∀ b, le (key b) (key (MPDParser.max_from lt key b l)))
      by (intros b; apply IH, elem_of_cons; auto).
    assert (Htail : ∀ b z, z ∈ l → le (key z) (key (MPDParser.max_from lt key b l)))
      by (intros b z Hz; apply IH, elem_of_cons; auto).
    apply elem_of_cons in Hx as [->|Hx]; [|apply elem_of_cons in Hx as [->|Hx]];
      destruct (lt (key best) (key y)) eqn:Hlt; auto.
    + eapply le_trans; [by apply lt_le|]. apply Hhead.
    + eapply le_trans; [by apply not_lt_le|]. apply Hhead.
Qed.


End Extremum.

(** ** Audio selection *)

Section AudioSelection.
Import MPDParser SelectionSpec.

Lemma first_of_lang_none lang l :
  (∀ rep, rep ∈ l → ¬ shown_tag_matches rep lang) → first_of_lang lang l = None.
Proof.
  induction l as [|r l IH]; intros Hno; simpl; [done|].
  rewrite bool_decide_eq_false_2 by (apply Hno, elem_of_cons; auto).
  apply IH. intros rep Hrep. apply Hno, elem_of_cons. auto.
Qed.

Lemma first_of_lang_first lang l j rep :
  l !! j = Some rep →
  shown_tag_matches rep lang →
  (∀ j' rep', (j' < j)%nat → l !! j' = Some rep' → ¬ shown_tag_matches rep' lang) →
  first_of_lang lang l = Some rep.
Proof.
  revert j; induction l as [|r l IH]; intros j Hj Hm Hfirst; [done|].
  destruct j as [|j]; simpl in *.
  - injection Hj as ->. by rewrite bool_decide_eq_true_2.
  - rewrite bool_decide_eq_false_2 by (apply (Hfirst 0%nat); [lia|done]).
    apply (IH j); [done..|]. intros j' rep' Hlt Hj'. apply (Hfirst (S j')); [lia|done].
Qed.

Lemma first_preferred_none langs l :
  (∀ lang rep, lang ∈ langs → rep ∈ l → ¬ shown_tag_matches rep lang) →
  first_preferred langs l = None.
Proof.
  induction langs as [|lang langs IH]; intros Hno; simpl; [done|].
  rewrite first_of_lang_none by (intros rep Hrep; apply Hno; [apply elem_of_cons|]; auto).
  apply IH. intros lang' rep Hl Hrep. apply Hno; [apply elem_of_cons|]; auto.
Qed.

Lemma first_preferred_first langs l i j lang rep :
  langs !! i = Some lang →
  l !! j = Some rep →
  shown_tag_matches rep lang →
  (∀ i' lang' rep', (i' < i)%nat → langs !! i' = Some lang' → rep' ∈ l →
     ¬ shown_tag_matches rep' lang') →
  (∀ j' rep', (j' < j)%nat → l !! j' = Some rep' → ¬ shown_tag_matches rep' lang) →
  first_preferred langs l = Some (rep, lang).
Proof.
  revert i; induction langs as [|lang0 langs IH]; intros i Hi Hj Hm Hprio Hfirst; [done|].
  destruct i as [|i]; simpl in *.
  - injection Hi as ->. by rewrite (first_of_lang_first _ _ _ _ Hj Hm Hfirst).
  - rewrite first_of_lang_none
      by (intros rep' Hrep'; apply (Hprio 0%nat); [lia|done..]).
    apply (IH i); [done..| |done].
    intros i' lang' rep' Hlt Hi' Hrep'. apply (Hprio (S i')); [lia|done..].
Qed.

Lemma best_audio_max self rep :
  get_best_audio self = Some rep →
  rep ∈ get_audios self
  ∧ ∀ rep', rep' ∈ get_audios self → Rep.bandwidth rep' ≤ Rep.bandwidth rep.
Proof.
  unfold get_best_audio. destruct (get_audios self) as [|a l]; [done|].
  intros [= <-]. split; [apply max_from_in|].
  intros rep' Hrep'.
  apply (max_from_upper Z.ltb Z.le Rep.bandwidth); [lia..|done].
Qed.

(** C5, as amended.  Audio selection scans the preference list in
    priority order and, for each preferred language, the audio
    representations in parse order; it selects the first representation
    whose language tag, an empty tag standing for the literal [None],
    matches the preferred tag up to case.  When no preferred language
    matches any representation, or no preference list is given, it
    selects the audio representation of highest bandwidth; without
    audio representations the selection is null. *)
Theorem audio_selection (self : t) (prefs : option (list string)) :
  let audios := get_audios self in
  let selected := (select_audio self prefs).1.1.1 in
  audios = base.filter (λ r, Rep.type r = "audio") (representations self)
  ∧ (∀ langs i j lang rep,
       prefs = Some langs →
       langs !! i = Some lang →
       audios !! j = Some rep →
       shown_tag_matches rep lang →
       (∀ i' lang' rep', (i' < i)%nat → langs !! i' = Some lang' → rep' ∈ audios →
          ¬ shown_tag_matches rep' lang') →
       (∀ j' rep', (j' < j)%nat → audios !! j' = Some rep' →
          ¬ shown_tag_matches rep' lang) →
       selected = Some rep)
  ∧ (∀ langs,
       prefs = Some langs →
       (∀ lang rep, lang ∈ langs → rep ∈ audios → ¬ shown_tag_matches rep lang) →
       selected = get_best_audio self)
  ∧ (prefs = None → selected = get_best_audio self)
  ∧ (∀ rep,
       get_best_audio self = Some rep →
       rep ∈ audios ∧ ∀ rep', rep' ∈ audios → Rep.bandwidth rep' ≤ Rep.bandwidth rep)
  ∧ (audios ≠ [] → is_Some (get_best_audio self))
  ∧ (audios = [] → selected = None).
Proof.
  cbn zeta. split; [|split; [|split; [|split; [|split; [|split]]]]].
  - unfold get_audios, of_type. apply list_filter_iff. intros r.
    unfold is_type. apply bool_decide_eq_true.
  - intros langs i j lang rep -> Hi Hj Hm Hprio Hfirst.
    unfold select_audio.
    destruct langs as [|l0 langs]; [done|].
    by rewrite (first_preferred_first _ _ _ _ _ _ Hi Hj Hm Hprio Hfirst).
  - intros langs -> Hno. unfold select_audio.
    destruct langs as [|l0 langs]; [done|].
    by rewrite (first_preferred_none _ _ Hno).
  - by intros ->.
  - apply best_audio_max.
  - unfold get_best_audio. by destruct (get_audios self).
  - intros Hnil. unfold select_audio, get_best_audio. rewrite Hnil.
    destruct prefs as [[|l0 langs]|]; try done.
    by rewrite first_preferred_none by (intros ? ? _ []%elem_of_nil).
Qed.

(** C5 on the representations [en], [fr] with the preference list
    [it], [en]: the second preference selects the first representation. *)
Lemma audio_selection_witness :
  (select_audio (Examples.with_representations [Examples.audio_en; Examples.audio_fr])
     (Some ["it"; "en"])).1.1.1 = Some Examples.audio_en.
Proof.
  apply (proj1 (proj2 (audio_selection
                         (Examples.with_representations
                            [Examples.audio_en; Examples.audio_fr])
                         (Some ["it"; "en"])))
           ["it"; "en"] 1%nat 0%nat "en" Examples.audio_en);
    try reflexivity.
  - intros i' lang' rep' Hi' Hlang Hrep' Hm.
    assert (i' = 0%nat) as -> by lia. injection Hlang as <-.
    change (rep' ∈ [Examples.audio_en; Examples.audio_fr]) in Hrep'.
    apply elem_of_cons in Hrep' as [->|Hrep'];
      [|apply elem_of_cons in Hrep' as [->|Hrep']]; try discriminate Hm.
    by apply elem_of_nil in Hrep'.
  - intros j' rep' Hj'. lia.
Defined.

(** The examples of the specification: with [en] and [fr] available,
    the list [it], [en] selects [en] whatever the case of the tags, and
    the list [it], [de] falls back to the highest bandwidth. *)
Lemma audio_selection_examples :
  let self := Examples.with_representations [Examples.audio_en; Examples.audio_fr] in
  (select_audio self (Some ["it"; "EN"])).1.1.1 = Some Examples.audio_en
  ∧ (select_audio self (Some ["it"; "de"])).1.1.1 = Some Examples.audio_fr
  ∧ (select_audio self (Some ["it"; "de"])).1.1.1 = get_best_audio self
  ∧ (select_audio self None).1.1.1 = Some Examples.audio_fr
  ∧ (select_audio (Examples.with_representations [Examples.video_a]) (Some ["en"])).1.1.1
    = None.
Proof. by vm_compute. Qed.

(** C5 as stated fails where a representation has no language tag and
    the preference list names [none]: no language tag matches, yet the
    untagged representation is selected, not the one of highest
    bandwidth. *)
Lemma audio_selection_counterexample :
  let self := Examples.with_representations [Examples.audio_untagged; Examples.audio_en] in
  (∀ rep, rep ∈ get_audios self → ¬ tag_matches rep "none")
  ∧ get_best_audio self = Some Examples.audio_en
  ∧ (select_audio self (Some ["none"])).1.1.1 = Some Examples.audio_untagged
  ∧ (select_audio self (Some ["none"])).1.1.1 ≠ get_best_audio self.
Proof.
  cbn zeta. split; [|split; [|split]]; try by vm_compute.
  intros rep Hrep Hm.
  change (rep ∈ [Examples.audio_untagged; Examples.audio_en]) in Hrep.
  apply elem_of_cons in Hrep as [->|Hrep];
    [|apply elem_of_cons in Hrep as [->|Hrep]]; try discriminate Hm.
  by apply elem_of_nil in Hrep.
Qed.

End AudioSelection.

(** ** Fetching with retries *)

Section Fetch.
Import MPDParser FetchSpec.

Variable max_retry : Z.
Variable network : nat → reply.

Lemma after_retries_S self a k :
  after_retries max_retry self a (S k) =
  after_retries max_retry (print self (retry_message a max_retry)) (S a) k.
Proof. reflexivity. Qed.

Lemma after_retries_root self a k : root (after_retries max_retry self a k) = root self.
Proof.
  revert self a; induction k as [|k IH]; intros self a; [done|].
  by rewrite after_retries_S, IH.
Qed.

Lemma fetch_loop_success k : ∀ n a self doc,
  (k < n)%nat →
  (∀ i, (i < k)%nat → fails (network (a + i))) →
  Z.of_nat (a + k) ≤ max_retry →
  attempt_once (network (a + k)) = Ok doc →
  fetch_loop max_retry network n a self =
  (set_root (after_retries max_retry self a k) doc, Ok ()).
Proof.
  induction k as [|k IH]; intros n a self doc Hn Hfail Hle Hok.
  - destruct n as [|n]; [lia|]. simpl. rewrite Nat.add_0_r in Hok. by rewrite Hok.
  - destruct n as [|n]; [lia|]. simpl.
    destruct (Hfail 0%nat ltac:(lia)) as [e He]. rewrite Nat.add_0_r in He. rewrite He.
    destruct (Z.eqb_spec (Z.of_nat a) max_retry) as [Heq|_]; [lia|].
    rewrite (IH n (S a) _ doc); [by rewrite after_retries_S|lia| |lia|].
    + intros i Hi. replace (S a + i)%nat with (a + S i)%nat by lia. apply Hfail. lia.
    + by replace (S a + k)%nat with (a + S k)%nat by lia.
Qed.

Lemma fetch_loop_exhausted k : ∀ a self,
  Z.of_nat (a + k) = max_retry →
  (∀ i, (i ≤ k)%nat → fails (network (a + i))) →
  ∃ e,
    attempt_once (network (a + k)) = Raise e
    ∧ fetch_loop max_retry network (S k) a self =
      (after_retries max_retry self a k, Raise e).
Proof.
  induction k as [|k IH]; intros a self Hlast Hfail.
  - destruct (Hfail 0%nat ltac:(lia)) as [e He]. exists e. split; [done|].
    simpl. rewrite Nat.add_0_r in He, Hlast. rewrite He.
    by rewrite (proj2 (Z.eqb_eq _ _) Hlast).
  - destruct (Hfail 0%nat ltac:(lia)) as [e0 He0]. rewrite Nat.add_0_r in He0.
    destruct (IH (S a) (print self (retry_message a max_retry))) as (e & He & Hloop).
    + lia.
    + intros i Hi. replace (S a + i)%nat with (a + S i)%nat by lia. apply Hfail. lia.
    + exists e. replace (a + S k)%nat with (S a + k)%nat by lia. split; [done|].
      cbn [fetch_loop]. rewrite He0.
      destruct (Z.eqb_spec (Z.of_nat a) max_retry) as [Heq|_]; [lia|].
      by rewrite after_retries_S.
Qed.

Lemma after_retries_console self a k :
  length (console (after_retries max_retry self a k)) = (length (console self) + k)%nat.
Proof.
  revert self a; induction k as [|k IH]; intros self a.
  - unfold after_retries. simpl. lia.
  - rewrite after_retries_S, IH. cbn [print console]. rewrite length_app. simpl. lia.
Qed.

(** C6, as amended.  Manifest fetching retries after any failed attempt
    (a transport failure, an error status, or a document that does not
    parse), sequentially, up to [max_retry] additional attempts, with
    one diagnostic per retry.  If an attempt within the bound succeeds
    after failed ones, the parsed document becomes the root, as if no
    failure had occurred but for the diagnostics.  If every attempt
    fails, the error of the last attempt propagates and the root is
    left as it was: no document is produced. *)
Theorem fetch_retry (self : t) :
  0 ≤ max_retry →
  (∀ k doc,
     Z.of_nat k ≤ max_retry →
     (∀ i, (i < k)%nat → fails (network i)) →
     attempt_once (network k) = Ok doc →
     _fetch_and_parse_mpd max_retry network self =
       (set_root (after_retries max_retry self 0 k) doc, Ok ())
     ∧ length (console (after_retries max_retry self 0 k)) = (length (console self) + k)%nat)
  ∧ ((∀ i, Z.of_nat i ≤ max_retry → fails (network i)) →
     ∃ e self',
       attempt_once (network (Z.to_nat max_retry)) = Raise e
       ∧ _fetch_and_parse_mpd max_retry network self = (self', Raise e)
       ∧ root self' = root self
       ∧ length (console self') = (length (console self) + Z.to_nat max_retry)%nat).
Proof.
  intros Hmax. unfold _fetch_and_parse_mpd.
  replace (Z.to_nat (max_retry + 1)) with (S (Z.to_nat max_retry)) by lia.
  split.
  - intros k doc Hk Hfail Hok. split; [|apply after_retries_console].
    apply fetch_loop_success; [lia|done|by rewrite Nat.add_0_l|done].
  - intros Hfail.
    destruct (fetch_loop_exhausted (Z.to_nat max_retry) 0%nat self) as (e & He & Hloop).
    + rewrite Nat.add_0_l. lia.
    + intros i Hi. rewrite Nat.add_0_l. apply Hfail. lia.
    + exists e, (after_retries max_retry self 0 (Z.to_nat max_retry)).
      rewrite Nat.add_0_l in He.
      split; [done|]. split; [done|]. split; [apply after_retries_root|].
      apply after_retries_console.
Qed.

End Fetch.

(** C6 with a server that is unreachable once: the second of up to four
    attempts brings the document. *)
Lemma fetch_retry_witness :
  MPDParser._fetch_and_parse_mpd 3 Examples.unreachable_once
    (MPDParser.new Examples.mpd_url) =
  (MPDParser.set_root
     (FetchSpec.after_retries 3 (MPDParser.new Examples.mpd_url) 0 1)
     Examples.dash_root, Ok ()).
Proof.
  apply (proj1 (fetch_retry 3 Examples.unreachable_once
                  (MPDParser.new Examples.mpd_url) ltac:(lia)) 1%nat Examples.dash_root).
  - lia.
  - intros i Hi. assert (i = 0%nat) as -> by lia. by exists RequestError.
  - reflexivity.
Defined.

(** C6 as stated fails where a reply with a good status carries a
    document that does not parse: the failure is neither one of
    transport nor one of status, yet the fetch is retried (one
    diagnostic is printed) and the second attempt sets the root. *)
Lemma fetch_retry_counterexample :
  MPDParser.attempt_once (Examples.malformed_once 0) = Raise ParseError
  ∧ ¬ FetchSpec.transport_or_status (Examples.malformed_once 0)
  ∧ MPDParser._fetch_and_parse_mpd 1 Examples.malformed_once
      (MPDParser.new Examples.mpd_url) =
    (MPDParser.set_root
       (MPDParser.print (MPDParser.new Examples.mpd_url)
          "[bold yellow]Retrying... (1/1)[/bold yellow]")
       Examples.dash_root, Ok ()).
Proof.
  split; [reflexivity|]. split; [|by vm_compute].
  by intros [H|H].
Qed.

(** ** Number placeholders *)

Section NumberTemplate.
Import URLBuilder TextSpec TemplateSpec.

Lemma startswith_app p t : Py.startswith p (p +:+ t) = true.
Proof.
  induction p as [|c p IH]; [done|]. rewrite app_String. simpl.
  by rewrite decide_True.
Qed.

Lemma startswith_inv p s : Py.startswith p s = true → ∃ t, s = p +:+ t.
Proof.
  revert s; induction p as [|c p IH]; intros s; simpl.
  - intros _. by exists s.
  - destruct s as [|a s]; [done|]. case_decide as Hc; [|done].
    intros [t ->]%IH. exists t. by rewrite Hc.
Qed.

Lemma span_digits_app ds r :
  all_chars Py.is_digit ds = true →
  (∀ c r', r = String c r' → Py.is_digit c = false) →
  span_digits (ds +:+ r) = (ds, r).
Proof.
  intros Hds Hr. induction ds as [|c ds IH].
  - destruct r as [|c r']; [done|]. rewrite app_empty_l. simpl.
    by rewrite (Hr c r' eq_refl).
  - simpl in Hds. apply andb_true_iff in Hds as [Hc Hds].
    rewrite app_String. simpl. by rewrite Hc, IH.
Qed.

Lemma span_digits_inv s ds r :
  span_digits s = (ds, r) →
  s = ds +:+ r ∧ all_chars Py.is_digit ds = true.
Proof.
  revert ds; induction s as [|c s IH]; intros ds; simpl.
  - by intros [= <- <-].
  - destruct (Py.is_digit c) eqn:Hc.
    + destruct (span_digits s) as [ds' r'] eqn:Hs. intros [= <- <-].
      destruct (IH ds' eq_refl) as [-> Hds]. split; [done|]. simpl. by rewrite Hc.
    + by intros [= <- <-].
Qed.

Lemma after_number t : Py.drop 7 ("$Number" +:+ t) = t.
Proof. reflexivity. Qed.

Lemma match_number_plain rest : match_number ("$Number$" +:+ rest) = Some (None, 8%nat).
Proof.
  unfold match_number. change ("$Number$" +:+ rest) with ("$Number" +:+ String "$" rest).
  by rewrite startswith_app, after_number.
Qed.

Lemma match_number_formatted ds rest :
  is_width ds →
  match_number (formatted ds +:+ rest) = Some (Some ds, (11 + String.length ds)%nat).
Proof.
  intros [Hne Hds]. unfold match_number, formatted.
  rewrite !app_assoc_s.
  change ("$Number%0" +:+ ds +:+ "d$" +:+ rest)
    with ("$Number" +:+ String "%" (String "0" (ds +:+ String "d" (String "$" rest)))).
  rewrite startswith_app, after_number.
  rewrite span_digits_app; [|done|by intros c r' [= <- _]].
  by destruct ds.
Qed.

Lemma match_number_inv s fmt len :
  match_number s = Some (fmt, len) →
  ∃ rest,
    (fmt = None ∧ len = 8%nat ∧ s = "$Number$" +:+ rest)
    ∨ (∃ ds, fmt = Some ds ∧ len = (11 + String.length ds)%nat
             ∧ is_width ds ∧ s = formatted ds +:+ rest).
Proof.
  unfold match_number. destruct (Py.startswith "$Number" s) eqn:Hs; [|done].
  apply startswith_inv in Hs as [t ->]. rewrite after_number.
  destruct t as [|c t]; [done|].
  destruct (decide (c = "$"%char)) as [->|Hc1].
  { intros [= <- <-]. exists t. by left. }
  destruct (decide (c = "%"%char)) as [->|Hc2].
  - destruct t as [|c0 t]; [done|].
    destruct (decide (c0 = "0"%char)) as [->|Hc0].
    + destruct (span_digits t) as [ds r] eqn:Hsp.
      apply span_digits_inv in Hsp as [-> Hds].
      destruct ds as [|d ds]; [done|].
      destruct r as [|c1 r]; [done|].
      destruct (decide (c1 = "d"%char)) as [->|Hd].
      * destruct r as [|c2 r]; [done|].
        destruct (decide (c2 = "$"%char)) as [->|Hd2].
        -- intros [= <- <-]. exists r. right. exists (String d ds).
           split; [done|]. split; [done|]. split; [done|].
           unfold formatted. by rewrite !app_assoc_s.
        -- by destruct c2 as [[] [] [] [] [] [] [] []].
      * by destruct c1 as [[] [] [] [] [] [] [] []].
    + by destruct c0 as [[] [] [] [] [] [] [] []].
  - by destruct c as [[] [] [] [] [] [] [] []].
Qed.

Lemma sub_number_skip number x rest :
  sub_number number (x +:+ rest) (String.length x) = sub_number number rest 0.
Proof.
  induction x as [|c x IH]; [done|]. by rewrite app_String.
Qed.

Lemma replace_number_at_match number c tok rest fmt :
  match_number (String c tok +:+ rest) = Some (fmt, S (String.length tok)) →
  _replace_number (String c tok +:+ rest) number =
  _replace_number_match number fmt +:+ _replace_number rest number.
Proof.
  intros Hm. unfold _replace_number. rewrite app_String in *.
  cbn [sub_number]. rewrite Hm. cbn [Nat.sub]. by rewrite Nat.sub_0_r, sub_number_skip.
Qed.

Lemma str_nonneg n : 0 ≤ n → ∃ c s, Py.str n = String c s ∧ Py.is_digit c = true.
Proof.
  intros Hn. unfold Py.str. destruct n as [|p|p]; [by eexists _, _| |lia].
  unfold Z.to_int, NilZero.string_of_int, NilZero.string_of_uint.
  destruct (Pos.to_uint p); by eexists _, _.
Qed.

Lemma zfill_digit width c s :
  Py.is_digit c = true →
  Py.zfill width (String c s) =
  Py.zeros (width - String.length (String c s)) +:+ String c s.
Proof. destruct c as [[] [] [] [] [] [] [] []]; by intros. Qed.

Lemma zeros_length n : String.length (Py.zeros n) = n.
Proof. induction n as [|n IH]; [done|]. simpl. by rewrite IH. Qed.

Lemma digits_int ds acc prev :
  all_chars Py.is_digit ds = true →
  ds ≠ "" ∨ prev = true →
  Py.int_digits acc prev ds = Some (digits_value acc ds).
Proof.
  revert acc prev; induction ds as [|c ds IH]; intros acc prev Hds Hne.
  - destruct Hne as [Hne| ->]; done.
  - simpl in *. apply andb_true_iff in Hds as [Hc Hds]. unfold Py.is_digit in Hc.
    destruct (Py.digit_val c) as [d|]; [|done]. simpl. apply IH; auto.
Qed.

Lemma is_digit_plain c :
  Py.is_digit c = true → negb (Py.is_space c) = true.
Proof. destruct c as [[] [] [] [] [] [] [] []]; by vm_compute. Qed.

Lemma int_width ds : is_width ds → Py.int ds = Ok (digits_value 0 ds).
Proof.
  intros [Hne Hds]. unfold Py.int, Py.strip.
  assert (Hs : all_chars (λ c, negb (Py.is_space c)) ds = true)
    by (eapply all_chars_impl; [|exact Hds]; apply is_digit_plain).
  rewrite lstrip_id, rstrip_id by done.
  destruct ds as [|c ds]; [done|].
  assert (Hi : Py.int_digits 0 false (String c ds) = Some (digits_value 0 (String c ds)))
    by (apply digits_int; auto).
  simpl in Hds. apply andb_true_iff in Hds as [Hc _].
  destruct c as [[] [] [] [] [] [] [] []]; try discriminate Hc; by rewrite Hi.
Qed.

Lemma finalize_plain urljoin base t :
  Py.has_char "#" t = false →
  Py.has_char "?" t = false →
  _finalize_url urljoin base t = urljoin base t.
Proof.
  intros Hf Hq. unfold _finalize_url.
  rewrite (split1_None _ _ Hf), Hq. apply app_empty_r.
Qed.

(** C7.  [_replace_number] rewrites a template from left to right:
    where [$Number$] starts the text it puts the decimal number, where
    [$Number%0Nd$] starts the text it puts the number filled with
    zeros to the width [N] (the integer the digits [N] denote), and it
    goes on after the placeholder; where no placeholder starts the text
    the character is kept.  Without a number, 0 is used.  For a number
    that is not negative the filling puts [N - len] zeros in front.
    [$Number%03d$] with 7 gives ["007"] and [$Number$] with 7 gives
    ["7"], also through [build_url]. *)
Theorem number_substitution :
  (∀ number rest,
     _replace_number ("$Number$" +:+ rest) number =
     Py.str (default 0 number) +:+ _replace_number rest number)
  ∧ (∀ number ds rest,
       is_width ds →
       _replace_number (formatted ds +:+ rest) number =
       Py.zfill (Z.to_nat (digits_value 0 ds)) (Py.str (default 0 number))
         +:+ _replace_number rest number)
  ∧ (∀ number c rest,
       ¬ number_at_head (String c rest) →
       _replace_number (String c rest) number = String c (_replace_number rest number))
  ∧ (∀ number, _replace_number "" number = "")
  ∧ (∀ ds, is_width ds → Py.int ds = Ok (digits_value 0 ds))
  ∧ (∀ width n,
       0 ≤ n →
       Py.zfill width (Py.str n) =
       Py.zeros (width - String.length (Py.str n)) +:+ Py.str n)
  ∧ _replace_number "$Number%03d$" (Some 7) = "007"
  ∧ _replace_number "$Number$" (Some 7) = "7"
  ∧ _replace_number "seg-$Number%05d$.m4s" None = "seg-00000.m4s"
  ∧ (∀ urljoin base,
       build_url urljoin base (Some "$Number%03d$") None (Some 7) None None
       = Some (urljoin base "007")
       ∧ build_url urljoin base (Some "$Number$") None (Some 7) None None
         = Some (urljoin base "7")).
Proof.
  split; [|split; [|split; [|split; [|split; [|split; [|split; [|split; [|split]]]]]]]].
  - intros number rest.
    change ("$Number$" +:+ rest) with (String "$" "Number$" +:+ rest).
    rewrite (replace_number_at_match _ _ _ _ None); [done|].
    apply (match_number_plain rest).
  - intros number ds rest Hw.
    assert (Hf : formatted ds = String "$" ("Number%0" +:+ ds +:+ "d$")) by done.
    rewrite Hf. rewrite (replace_number_at_match _ _ _ _ (Some ds)); [done|].
    rewrite <- Hf, (match_number_formatted _ _ Hw). do 2 f_equal.
    rewrite !app_length_s. simpl. lia.
  - intros number c rest Hno. unfold _replace_number. cbn [sub_number].
    destruct (match_number (String c rest)) as [[fmt len]|] eqn:Hm; [|done].
    exfalso. apply Hno. apply match_number_inv in Hm as [r [(_ & _ & ->)|(ds & _ & _ & Hw & ->)]].
    + left. by exists r.
    + right. by exists ds, r.
  - done.
  - apply int_width.
  - intros width n Hn. destruct (str_nonneg n Hn) as (c & s & -> & Hc).
    by apply zfill_digit.
  - by vm_compute.
  - by vm_compute.
  - by vm_compute.
  - intros urljoin base.
    split; rewrite <- (finalize_plain urljoin base) by done; by vm_compute.
Qed.

End NumberTemplate.

(** C7 at the template [seg-$Number%03d$.m4s], after the text that
    precedes the placeholder. *)
Lemma number_substitution_witness :
  URLBuilder._replace_number ("$Number%0" +:+ "3" +:+ "d$" +:+ ".m4s") (Some 7)
  = Py.zfill 3 "7" +:+ ".m4s".
Proof.
  apply (proj1 (proj2 number_substitution) (Some 7) "3" ".m4s").
  split; [discriminate|reflexivity].
Defined.

(** ** Query and fragment *)

Section Finalize.
Import URLBuilder.

Variable urljoin : string → string → string.

Lemma split1_has_char c s : Py.has_char c s = true → is_Some (Py.split1 c s).
Proof.
  induction s as [|a s IH]; simpl; [done|].
  case_decide; [by eexists|]. intros Hs. destruct (IH Hs) as [[l r] ->]. by eexists.
Qed.

Lemma split1_has_char_None c s : Py.split1 c s = None → Py.has_char c s = false.
Proof.
  intros Hs. destruct (Py.has_char c s) eqn:Hc; [|done].
  apply split1_has_char in Hc as [x Hx]. congruence.
Qed.

Lemma finalize_query_fragment base p q f :
  Py.has_char "#" p = false → Py.has_char "?" p = false → Py.has_char "#" q = false →
  _finalize_url urljoin base (p +:+ "?" +:+ q +:+ "#" +:+ f)
  = urljoin base p +:+ "?" +:+ q +:+ "#" +:+ f.
Proof.
  intros Hp1 Hp2 Hq. unfold _finalize_url.
  replace (p +:+ "?" +:+ q +:+ "#" +:+ f) with ((p +:+ "?" +:+ q) +:+ String "#" f)
    by (by rewrite !app_assoc_s).
  rewrite split1_app by (by rewrite !has_char_app, Hp1, Hq).
  rewrite !has_char_app, Hp2. cbn [orb Py.has_char]. rewrite decide_True by done.
  cbn [orb]. change ("?" +:+ q) with (String "?" q). by rewrite split1_app.
Qed.

Lemma finalize_query base p q :
  Py.has_char "#" p = false → Py.has_char "?" p = false → Py.has_char "#" q = false →
  _finalize_url urljoin base (p +:+ "?" +:+ q) = urljoin base p +:+ "?" +:+ q.
Proof.
  intros Hp1 Hp2 Hq. unfold _finalize_url.
  rewrite split1_None by (by rewrite !has_char_app, Hp1, Hq).
  rewrite !has_char_app, Hp2. cbn [orb Py.has_char]. rewrite decide_True by done.
  cbn [orb]. change ("?" +:+ q) with (String "?" q). rewrite split1_app by done.
  by rewrite app_empty_r.
Qed.

Lemma finalize_fragment base p f :
  Py.has_char "#" p = false → Py.has_char "?" p = false →
  _finalize_url urljoin base (p +:+ "#" +:+ f) = urljoin base p +:+ "#" +:+ f.
Proof.
  intros Hp1 Hp2. unfold _finalize_url.
  change ("#" +:+ f) with (String "#" f). rewrite split1_app by done.
  by rewrite Hp2.
Qed.

Lemma finalize_decompose base t :
  ∃ path tail,
    t = path +:+ tail
    ∧ _finalize_url urljoin base t = urljoin base path +:+ tail
    ∧ Py.has_char "#" path = false
    ∧ Py.has_char "?" path = false
    ∧ (tail = "" ∨ Py.startswith "?" tail = true ∨ Py.startswith "#" tail = true).
Proof.
  unfold _finalize_url.
  destruct (Py.split1 "#" t) as [[pq f]|] eqn:Hsharp.
  - apply split1_Some in Hsharp as [-> Hpq].
    destruct (Py.has_char "?" pq) eqn:Hq.
    + destruct (split1_has_char _ _ Hq) as [[p q] Hsq]. rewrite Hsq.
      apply split1_Some in Hsq as [-> Hp].
      rewrite has_char_app in Hpq. apply orb_false_iff in Hpq as [Hp' _].
      exists p, ("?" +:+ q +:+ "#" +:+ f). rewrite ?app_assoc_s. auto 10.
    + exists pq, ("#" +:+ f). auto 10.
  - apply split1_has_char_None in Hsharp.
    destruct (Py.has_char "?" t) eqn:Hq.
    + destruct (split1_has_char _ _ Hq) as [[p q] Hsq]. rewrite Hsq.
      apply split1_Some in Hsq as [-> Hp].
      rewrite has_char_app in Hsharp. apply orb_false_iff in Hsharp as [Hp' _].
      exists p, ("?" +:+ q). rewrite ?app_assoc_s, ?app_empty_r. auto 10.
    + exists t, "". rewrite ?app_empty_r. auto 10.
Qed.

(** C8.  [_finalize_url] isolates the fragment at the first [#] and
    the query at the first [?] before it, joins the path alone against
    the base, and puts the query and the fragment back as they were:
    the result is the joined path followed by [?], the query, [#] and
    the fragment, each only if present.  The template
    [seg.mp4?token=abc#frag] resolves, against every base, to a URL
    that ends in [?token=abc#frag]. *)
Theorem finalize_preserves :
  (∀ base p q f,
     Py.has_char "#" p = false → Py.has_char "?" p = false → Py.has_char "#" q = false →
     _finalize_url urljoin base (p +:+ "?" +:+ q +:+ "#" +:+ f)
     = urljoin base p +:+ "?" +:+ q +:+ "#" +:+ f)
  ∧ (∀ base p q,
       Py.has_char "#" p = false → Py.has_char "?" p = false → Py.has_char "#" q = false →
       _finalize_url urljoin base (p +:+ "?" +:+ q) = urljoin base p +:+ "?" +:+ q)
  ∧ (∀ base p f,
       Py.has_char "#" p = false → Py.has_char "?" p = false →
       _finalize_url urljoin base (p +:+ "#" +:+ f) = urljoin base p +:+ "#" +:+ f)
  ∧ (∀ base p,
       Py.has_char "#" p = false → Py.has_char "?" p = false →
       _finalize_url urljoin base p = urljoin base p)
  ∧ (∀ base t,
       ∃ path tail,
         t = path +:+ tail
         ∧ _finalize_url urljoin base t = urljoin base path +:+ tail
         ∧ Py.has_char "#" path = false
         ∧ Py.has_char "?" path = false
         ∧ (tail = "" ∨ Py.startswith "?" tail = true ∨ Py.startswith "#" tail = true))
  ∧ (∀ base,
       _finalize_url urljoin base "seg.mp4?token=abc#frag"
       = urljoin base "seg.mp4" +:+ "?token=abc#frag"
       ∧ build_url urljoin base (Some "seg.mp4?token=abc#frag") None None None None
         = Some (urljoin base "seg.mp4" +:+ "?token=abc#frag")).
Proof.
  split; [exact finalize_query_fragment|]. split; [exact finalize_query|].
  split; [exact finalize_fragment|]. split; [intros; by apply finalize_plain|].
  split; [exact finalize_decompose|].
  intros base.
  assert (Hf : _finalize_url urljoin base "seg.mp4?token=abc#frag"
               = urljoin base "seg.mp4" +:+ "?token=abc#frag")
    by (apply (finalize_query_fragment base "seg.mp4" "token=abc" "frag"); by vm_compute).
  split; [done|]. rewrite <- Hf. by vm_compute.
Qed.

End Finalize.

(** C8 at the template [seg.mp4?token=abc#frag] under the base
    [http://host/a/]. *)
Lemma finalize_preserves_witness :
  URLBuilder._finalize_url Examples.concat_join Examples.base_url
    ("seg.mp4" +:+ "?" +:+ "token=abc" +:+ "#" +:+ "frag")
  = Examples.concat_join Examples.base_url "seg.mp4"
      +:+ "?" +:+ "token=abc" +:+ "#" +:+ "frag".
Proof.
  apply (proj1 (finalize_preserves Examples.concat_join)); reflexivity.
Defined.

(** ** Best and worst representation *)

Section BestWorst.
Import MPDParser SelectionSpec.





Lemma of_type_elem ty r reps : r ∈ of_type ty reps ↔ r ∈ reps ∧ Rep.type r = ty.
Proof.
  unfold of_type, is_type. rewrite list_elem_of_filter, bool_decide_eq_true. tauto.
Qed.


Lemma of_type_idem ty reps : of_type ty (of_type ty reps) = of_type ty reps.
Proof.
  unfold of_type. rewrite list_filter_filter. apply list_filter_iff. tauto.
Qed.

Lemma of_type_other ty ty' reps : ty ≠ ty' → of_type ty (of_type ty' reps) = [].
Proof.
  intros Hne. destruct (of_type ty (of_type ty' reps)) as [|r l] eqn:Hl; [done|].
  assert (Hr : r ∈ of_type ty (of_type ty' reps)) by (rewrite Hl; apply elem_of_cons; auto).
  apply of_type_elem in Hr as [[_ Hr1]%of_type_elem Hr2]. congruence.
Qed.


(** C10.  When the list holds a video representation, [get_best] and
    [get_worst] return video representations of the list, the same as
    on the video representations alone, whatever the audio
    representations are; an audio representation is returned only when
    the list holds no video representation; on a list with neither
    video nor audio representation both return null. *)
Theorem video_before_audio :
  (∀ representations v,
     v ∈ representations → Rep.type v = "video" →
     ∃ best worst,
       get_best representations = Some best
       ∧ get_worst representations = Some worst
       ∧ Rep.type best = "video" ∧ Rep.type worst = "video"
       ∧ best ∈ representations ∧ worst ∈ representations
       ∧ get_best representations = get_best (of_type "video" representations)
       ∧ get_worst representations = get_worst (of_type "video" representations))
  ∧ (∀ representations r,
       get_best representations = Some r ∨ get_worst representations = Some r →
       Rep.type r = "audio" →
       ∀ v, v ∈ representations → Rep.type v ≠ "video")
  ∧ (∀ representations,
       (∀ r, r ∈ representations → Rep.type r ≠ "video" ∧ Rep.type r ≠ "audio") →
       get_best representations = None ∧ get_worst representations = None)
  ∧ get_best [Examples.audio_heavy; Examples.video_c; Examples.video_a]
    = Some Examples.video_a
  ∧ get_worst [Examples.audio_untagged; Examples.video_c; Examples.video_a]
    = Some Examples.video_c
  ∧ get_best [Examples.subtitles] = None.
Proof.
  split; [|split; [|split; [|split; [|split]]]]; try by vm_compute.
  - intros reps v Hv Hty.
    assert (Hin : v ∈ of_type "video" reps) by (by apply of_type_elem).
    unfold get_best, get_worst. rewrite of_type_idem, of_type_other by done.
    destruct (of_type "video" reps) as [|x xs] eqn:Hvideos; [by apply elem_of_nil in Hin|].
    pose proof (max_from_in lt3 key3 x xs) as Hb.
    pose proof (min_from_in lt3 key3 x xs) as Hw.
    rewrite <- Hvideos in Hb, Hw. apply of_type_elem in Hb as [Hb1 Hb2].
    apply of_type_elem in Hw as [Hw1 Hw2].
    eexists _, _. repeat split; done.
  - intros reps r Hsel Hty v Hv Hvideo.
    assert (Hin : v ∈ of_type "video" reps) by (by apply of_type_elem).
    unfold get_best, get_worst in Hsel.
    destruct (of_type "video" reps) as [|x xs] eqn:Hvideos; [by apply elem_of_nil in Hin|].
    pose proof (max_from_in lt3 key3 x xs) as Hb.
    pose proof (min_from_in lt3 key3 x xs) as Hw.
    rewrite <- Hvideos in Hb, Hw. apply of_type_elem in Hb as [_ Hb].
    apply of_type_elem in Hw as [_ Hw].
    destruct Hsel as [[= <-]|[= <-]]; congruence.
  - intros reps Hno. unfold get_best, get_worst.
    assert (Hv : of_type "video" reps = []).
    { destruct (of_type "video" reps) as [|x xs] eqn:Hl; [done|].
      assert (Hx : x ∈ of_type "video" reps) by (rewrite Hl; apply elem_of_cons; auto).
      apply of_type_elem in Hx as [Hx1 Hx2]. by destruct (Hno x Hx1). }
    assert (Ha : of_type "audio" reps = []).
    { destruct (of_type "audio" reps) as [|x xs] eqn:Hl; [done|].
      assert (Hx : x ∈ of_type "audio" reps) by (rewrite Hl; apply elem_of_cons; auto).
      apply of_type_elem in Hx as [Hx1 Hx2]. by destruct (Hno x Hx1). }
    by rewrite Hv, Ha.
Qed.

End BestWorst.


(** C10 at a list whose audio representation has the highest bandwidth. *)
Lemma video_before_audio_witness :
  ∃ best worst,
    MPDParser.get_best [Examples.audio_heavy; Examples.video_c; Examples.video_a] = Some best
    ∧ MPDParser.get_worst [Examples.audio_heavy; Examples.video_c; Examples.video_a]
      = Some worst
    ∧ Rep.type best = "video" ∧ Rep.type worst = "video".
Proof.
  destruct (proj1 video_before_audio
              [Examples.audio_heavy; Examples.video_c; Examples.video_a]
              Examples.video_c)
    as (best & worst & Hb & Hw & Hbt & Hwt & _).
  - apply elem_of_cons. right. apply elem_of_cons. by left.
  - reflexivity.
  - by exists best, worst.
Defined.

(** * Further properties of the code *)

(** ** The timeline decoder *)

Section TimelineMore.
Import SegmentTimelineParser TimelineSpec TimelineMoreSpec.

Lemma run_app a s k1 k2 :
  run a s (k1 + k2) = run a s k1 ++ run (a + Z.of_nat k1 * s) s k2.
Proof.
  revert a; induction k1 as [|k1 IH]; intros a.
  - simpl. f_equal. lia.
  - cbn [Nat.add run app]. rewrite IH. do 3 f_equal. lia.
Qed.

Lemma foldl_emit_numbers vs st :
  number_list st = run 1 1 (length (number_list st)) →
  start_number st = 1 + Z.of_nat (length (number_list st)) →
  let st' := foldl emit_view st vs in
  number_list st' = run 1 1 (length (number_list st')).
Proof.
  revert st; induction vs as [|v vs IH]; intros st Hnl Hsn; [done|].
  cbn [foldl]. apply IH; destruct v as [|d r t]; try done; cbn [emit_view number_list start_number].
  - rewrite length_app, run_length, run_app, <- Hnl. do 2 f_equal. lia.
  - rewrite length_app, run_length. lia.
Qed.

(** X1.  The segment numbers the decoder returns are 1, 2, ..., n, one
    for each start time. *)
Theorem timeline_numbers_consecutive ns tl numbers times :
  parse ns tl = Ok (numbers, times) →
  length numbers = length times
  ∧ ∀ i, (i < length numbers)%nat → numbers !! i = Some (1 + Z.of_nat i).
Proof.
  intros H. split; [by eapply parse_lengths|].
  destruct tl as [tl|]; simpl in H; [|injection H as <- <-; simpl; lia].
  inv_bind H as ss Hss. rewrite loop_views in H.
  inv_bind H as st Hst. inv_bind Hst as vs Hvs.
  injection H as <- <-. injection Hst as <-.
  intros i Hi. rewrite (foldl_emit_numbers vs init) by done.
  rewrite run_lookup by done. f_equal. lia.
Qed.

Lemma timeline_numbers_consecutive_witness :
  length [1; 2; 3; 4] = length [0; 10; 20; 30]
  ∧ ([1; 2; 3; 4] : list Z) !! 3%nat = Some (1 + Z.of_nat 3).
Proof.
  assert (Hp : parse Examples.ns (Some Examples.timeline)
               = Ok ([1; 2; 3; 4], [0; 10; 20; 30])) by (by vm_compute).
  destruct (timeline_numbers_consecutive _ _ _ _ Hp) as [Hlen Hnum].
  split; [exact Hlen|]. apply Hnum. simpl. lia.
Defined.

Lemma int_raises s e : Py.int s = Raise e → e = ValueError.
Proof.
  unfold Py.int.
  match goal with
  | |- context [match ?b with Some z => Ok z | None => _ end] => destruct b
  end; [done|]. by intros [= <-].
Qed.

Lemma step_raises st s e : step st s = Raise e → e = ValueError.
Proof.
  unfold step. destruct (ET.get s "d") as [d|]; [|done].
  destruct (Py.int d) as [dz|e1] eqn:Hd;
    [|intros [= <-]; by eapply int_raises]. cbn [rbind].
  destruct (ET.get s "r") as [r|].
  - destruct (Py.int r) as [rz|e1] eqn:Hr;
      [|intros [= <-]; by eapply int_raises]. cbn [rbind].
    destruct (ET.get s "t") as [t|]; [|done].
    destruct (Py.int t) as [tz|e1] eqn:Ht; [done|]. intros [= <-]. by eapply int_raises.
  - cbn [rbind]. destruct (ET.get s "t") as [t|]; [|done].
    destruct (Py.int t) as [tz|e1] eqn:Ht; [done|]. intros [= <-]. by eapply int_raises.
Qed.

Lemma loop_raises ss st e : loop st ss = Raise e → e = ValueError.
Proof.
  revert st; induction ss as [|s ss IH]; intros st; simpl; [done|].
  destruct (step st s) as [st'|e'] eqn:Hs; cbn [rbind]; [apply IH|].
  intros [= <-]. by eapply step_raises.
Qed.

(** X2.  The decoder raises nothing but [SyntaxError], which it does
    exactly when the [mpd] prefix is not registered (also on a timeline
    without children), and [ValueError], from an attribute that is not
    an integer. *)
Theorem timeline_raises_only ns :
  (∀ tl e,
     parse ns tl = Raise e →
     (e = SyntaxError ∧ ns !! "mpd" = None) ∨ (e = ValueError ∧ is_Some (ns !! "mpd")))
  ∧ (ns !! "mpd" = None → ∀ tl, parse ns (Some tl) = Raise SyntaxError)
  ∧ parse ns None = Ok ([], []).
Proof.
  split; [|split; [|done]].
  - intros [tl|] e; [|done]. unfold parse, ET.findall, ET.qname.
    destruct (ns !! "mpd") as [uri|]; cbn [rbind]; [|intros [= <-]; by left].
    destruct (loop init _) as [st|e'] eqn:Hl; cbn [rbind]; [done|].
    intros [= <-]. right. split; [by eapply loop_raises|by eexists].
  - intros Hns tl. unfold parse, ET.findall, ET.qname. by rewrite Hns.
Qed.

Lemma timeline_raises_only_witness :
  parse ∅ (Some Examples.timeline) = Raise SyntaxError.
Proof.
  apply (proj1 (proj2 (timeline_raises_only ∅))). apply lookup_empty.
Defined.

Lemma run_sorted c d k : 0 ≤ d → StronglySorted Z.le (run c d k).
Proof.
  intros Hd. revert c; induction k as [|k IH]; intros c; simpl; [constructor|].
  constructor; [apply IH|]. apply Forall_forall. intros x Hx.
  apply list_elem_of_lookup in Hx as [i Hi].
  assert (Hlt : (i < k)%nat) by (apply lookup_lt_Some in Hi; by rewrite run_length in Hi).
  rewrite run_lookup in Hi by done. injection Hi as <-. nia.
Qed.

Lemma run_bounds c d k x :
  0 ≤ d → x ∈ run c d k → c ≤ x ≤ c + Z.of_nat k * d.
Proof.
  intros Hd Hx. apply list_elem_of_lookup in Hx as [i Hi].
  assert (Hlt : (i < k)%nat) by (apply lookup_lt_Some in Hi; by rewrite run_length in Hi).
  rewrite run_lookup in Hi by done. injection Hi as <-. nia.
Qed.

Lemma foldl_emit_sorted vs st :
  Forall steady vs →
  StronglySorted Z.le (time_list st) →
  (∀ x, x ∈ time_list st → 0 ≤ x ≤ default 0 (current_time st)) →
  0 ≤ default 0 (current_time st) →
  let st' := foldl emit_view st vs in
  StronglySorted Z.le (time_list st') ∧ ∀ x, x ∈ time_list st' → 0 ≤ x.
Proof.
  revert st; induction vs as [|v vs IH]; intros st Hvs Hs Hb Hc.
  - simpl. split; [done|]. intros x Hx. by apply Hb.
  - apply Forall_cons in Hvs as [Hv Hvs]. cbn [foldl].
    destruct v as [|d r t]; [by apply IH|]. destruct Hv as [Hd ->].
    apply IH; [done|..]; simpl.
    + apply StronglySorted_app. split; [|split; [done|by apply run_sorted]].
      intros x1 x2 Hx1 Hx2. apply Hb in Hx1. apply (run_bounds _ _ _ _ Hd) in Hx2. lia.
    + intros x [Hx|Hx]%elem_of_app.
      * apply Hb in Hx. nia.
      * apply (run_bounds _ _ _ _ Hd) in Hx. lia.
    + nia.
Qed.

(** X3.  When no [S] element gives a start time [t] and no duration is
    negative, the start times the decoder returns begin at 0 and never
    decrease. *)
Theorem timeline_times_sorted ns tl ss vs numbers times :
  ET.findall tl ns "mpd" "S" = Ok ss →
  views ss = Ok vs →
  Forall steady vs →
  parse ns (Some tl) = Ok (numbers, times) →
  StronglySorted Z.le times
  ∧ (∀ x, x ∈ times → 0 ≤ x)
  ∧ (times ≠ [] → head times = Some 0).
Proof.
  intros Hss Hvs Hsteady. unfold parse. rewrite Hss. cbn [rbind].
  rewrite loop_views, Hvs. cbn [rbind]. intros [= <- <-].
  destruct (foldl_emit_sorted vs init Hsteady) as [Hsorted Hpos];
    [constructor|by intros x Hx%elem_of_nil|done|].
  split; [done|]. split; [done|].
  clear Hsorted Hpos Hvs Hss.
  assert (Hhead : ∀ st, Forall steady vs →
            (time_list st = [] ∧ default 0 (current_time st) = 0
             ∨ head (time_list st) = Some 0) →
            time_list (foldl emit_view st vs) ≠ [] →
            head (time_list (foldl emit_view st vs)) = Some 0).
  { clear Hsteady. induction vs as [|v vs IH]; intros st Hst Hinit Hne.
    - simpl in *. by destruct Hinit as [[? _]|?].
    - apply Forall_cons in Hst as [Hv Hst]. cbn [foldl] in *.
      apply IH; [done| |done].
      destruct v as [|d r t]; [done|]. destruct Hv as [_ ->].
      simpl.
      destruct Hinit as [[Hnil Hcur]|Hhd].
      + rewrite Hnil, Hcur. destruct (Z.to_nat (r + 1)) as [|k]; simpl; [left|right]; done.
      + right. destruct (time_list st); [done|]. done. }
  apply Hhead; [done|]. by left.
Qed.

Lemma timeline_times_sorted_witness :
  StronglySorted Z.le [0; 10; 20; 30]
  ∧ (∀ x, x ∈ [0; 10; 20; 30] → 0 ≤ x)
  ∧ (([0; 10; 20; 30] : list Z) ≠ [] → head [0; 10; 20; 30] = Some 0).
Proof.
  pose (tl := Elem "{urn:mpeg:dash:schema:mpd:2011}SegmentTimeline" ∅ None
                [Examples.S_ {[ "d" := "10"; "r" := "2" ]};
                 Examples.S_ {[ "d" := "5" ]}]).
  apply (timeline_times_sorted Examples.ns tl
           [Examples.S_ {[ "d" := "10"; "r" := "2" ]}; Examples.S_ {[ "d" := "5" ]}]
           [Run 10 2 None; Run 5 0 None] [1; 2; 3; 4]).
  - by vm_compute.
  - by vm_compute.
  - repeat constructor; done.
  - by vm_compute.
Defined.

End TimelineMore.

(** ** URL templates without placeholder, and the width of a number *)

Section TemplateMore.
Import URLBuilder.

Variable urljoin : string → string → string.

Lemma replace_absent c old new s :
  Py.has_char c s = false → Py.replace (String c old) new s = s.
Proof.
  unfold Py.replace. induction s as [|a s IH]; [done|]. simpl.
  case_decide as Hac; [done|]. intros Hs.
  rewrite decide_False by done. by rewrite IH.
Qed.

Lemma replace_number_absent s number :
  Py.has_char "$" s = false → _replace_number s number = s.
Proof.
  unfold _replace_number. induction s as [|a s IH]; [done|]. simpl.
  case_decide as Hac; [done|]. intros Hs.
  unfold match_number. cbn [Py.startswith]. rewrite decide_False by done.
  by rewrite IH.
Qed.

(** X4.  A template without [$] goes through the substitutions
    unchanged, whatever identifier, number, time and bandwidth are
    supplied: [build_url] resolves the template itself. *)
Theorem build_url_plain_template base template rep_id number time bandwidth :
  template ≠ "" →
  Py.has_char "$" template = false →
  build_url urljoin base (Some template) rep_id number time bandwidth
  = Some (_finalize_url urljoin base template).
Proof.
  intros Hne Hno. unfold build_url. destruct template as [|c t]; [done|].
  assert (H1 : (match rep_id with
                | Some i => Py.replace "$RepresentationID$" i (String c t)
                | None => String c t
                end) = String c t)
    by (destruct rep_id; [by apply replace_absent|done]).
  rewrite H1.
  assert (H2 : (match bandwidth with
                | Some b => Py.replace "$Bandwidth$" (Py.str b) (String c t)
                | None => String c t
                end) = String c t)
    by (destruct bandwidth; [by apply replace_absent|done]).
  rewrite H2, replace_number_absent by done.
  destruct time as [tm|]; [|done].
  destruct (Py.contains "$Time$" (String c t)); [|done].
  by rewrite replace_absent.
Qed.

End TemplateMore.

Lemma build_url_plain_template_witness :
  URLBuilder.build_url Examples.concat_join Examples.base_url (Some "init.mp4")
    (Some "v1") (Some 3) (Some 90000) (Some 5000)
  = Some (URLBuilder._finalize_url Examples.concat_join Examples.base_url "init.mp4").
Proof.
  apply build_url_plain_template; [discriminate|reflexivity].
Defined.

Section WidthMore.
Import URLBuilder.

Lemma zfill_length width s :
  String.length (Py.zfill width s) = Nat.max width (String.length s).
Proof.
  destruct s as [|c t].
  - simpl. rewrite app_length_s, zeros_length. simpl. lia.
  - destruct c as [[] [] [] [] [] [] [] []];
      cbn [Py.zfill String.length]; rewrite ?app_String; cbn [String.length];
      rewrite app_length_s, zeros_length; cbn [String.length]; lia.
Qed.

(** X5.  The text put for [$Number%0Nd$] is never cut: it has the
    width [N], or the length of the decimal number when that is
    longer. *)
Theorem formatted_number_width number ds :
  String.length (_replace_number_match number (Some ds))
  = Nat.max (Z.to_nat (digits_value 0 ds)) (String.length (Py.str (default 0 number))).
Proof. unfold _replace_number_match. apply zfill_length. Qed.

End WidthMore.

(** ** Representations *)

Section RepresentationMore.
Import RepresentationParser.

Variable urljoin : string → string → string.
Variable ns : gmap string string.

Lemma build_url_some base template rep_id number time bandwidth :
  template ≠ "" →
  is_Some (URLBuilder.build_url urljoin base (Some template) rep_id number time bandwidth).
Proof. intros Hne. destruct template; [done|]. by eexists. Qed.

Lemma parse_representation_meta rep_element adapt_set adapt_seg_template
    base_url mime_type lang rep :
  _parse_representation urljoin ns rep_element adapt_set adapt_seg_template
    base_url mime_type lang = Ok (Some rep) →
  Rep.id rep = ET.get rep_element "id"
  ∧ Rep.codec rep = ET.get rep_element "codecs"
  ∧ Rep.language rep = lang
  ∧ Rep.type rep = (if Py.truthy (Some mime_type)
                    then Py.split_head "/" mime_type else "unknown")
  ∧ int_or_zero (ET.get rep_element "bandwidth") = Ok (Rep.bandwidth rep)
  ∧ int_or_zero (ET.get rep_element "width") = Ok (Rep.width rep)
  ∧ int_or_zero (ET.get rep_element "height") = Ok (Rep.height rep).
Proof.
  unfold _parse_representation. intros H.
  inv_bind H as rep_tmpl Htmpl.
  destruct (match rep_tmpl with Some e => Some e | None => adapt_seg_template end)
    as [seg_tmpl|]; [|done].
  inv_bind H as rep_base_url Hbase. inv_bind H as p Hp. destruct p as [iu urls].
  inv_bind H as bw Hbw. inv_bind H as w Hw. inv_bind H as h Hh.
  by injection H as <-.
Qed.

(** X6.  The segment URLs of a parsed Representation are all present:
    the list never holds a null entry. *)
Theorem segment_urls_never_null rep_element adapt_set adapt_seg_template
    base_url mime_type lang rep :
  _parse_representation urljoin ns rep_element adapt_set adapt_seg_template
    base_url mime_type lang = Ok (Some rep) →
  ∀ u, u ∈ Rep.segment_urls rep → is_Some u.
Proof.
  intros H.
  destruct (parse_representation_inv _ _ _ _ _ _ _ _ _ H)
    as (rep_tmpl & seg_tmpl & rep_base_url & _ & _ & _ & Hbuild).
  destruct (build_segment_urls_inv _ _ _ _ _ _ _ _ Hbuild)
    as (start & timeline & numbers & times & _ & _ & _ & Hurls).
  destruct (ET.get seg_tmpl "media") as [[|c m]|] eqn:Hmedia.
  - rewrite media_urls_falsy in Hurls by done. injection Hurls as <-.
    by intros u Hu%elem_of_nil.
  - apply media_urls_cases in Hurls; [|done]. destruct Hurls as (bw & _ & ->).
    intros u Hu.
    destruct (_ && _); [|destruct (_ && _)].
    + apply list_elem_of_fmap in Hu as (t & -> & _). by apply build_url_some.
    + apply list_elem_of_fmap in Hu as (n & -> & _). by apply build_url_some.
    + apply list_elem_of_singleton in Hu as ->. by apply build_url_some.
  - rewrite media_urls_falsy in Hurls by done. injection Hurls as <-.
    by intros u Hu%elem_of_nil.
Qed.

Lemma filter_tag_nil t l :
  (∀ c, c ∈ l → tag c ≠ t) → base.filter (λ c, ET.has_tag t c = true) l = [].
Proof.
  intros Hno. destruct (base.filter _ l) as [|c l'] eqn:Hl; [done|].
  assert (Hc : c ∈ base.filter (λ c, ET.has_tag t c = true) l)
    by (rewrite Hl; apply elem_of_cons; auto).
  apply list_elem_of_filter in Hc as [Htag Hc]. unfold ET.has_tag in Htag.
  apply bool_decide_eq_true in Htag. by destruct (Hno c Hc).
Qed.

(** X7.  Which SegmentTemplate a Representation uses.  With no
    SegmentTemplate child, in an AdaptationSet without one, the
    Representation is dropped before any of its attributes is read: the
    result is null whatever the attributes hold.  With a
    SegmentTemplate child the template of the AdaptationSet has no
    influence on the result. *)
Theorem template_selection uri rep_element adapt_set base_url mime_type lang :
  ns !! "mpd" = Some uri →
  ((∀ c, c ∈ children rep_element → tag c ≠ "{" +:+ uri +:+ "}" +:+ "SegmentTemplate") →
   _parse_representation urljoin ns rep_element adapt_set None
     base_url mime_type lang = Ok None)
  ∧ (∀ c, c ∈ children rep_element →
       tag c = "{" +:+ uri +:+ "}" +:+ "SegmentTemplate" →
       ∀ t1 t2,
         _parse_representation urljoin ns rep_element adapt_set t1 base_url mime_type lang
         = _parse_representation urljoin ns rep_element adapt_set t2 base_url mime_type lang).
Proof.
  intros Hns. unfold _parse_representation.
  rewrite (find_registered _ _ _ _ _ Hns). cbn [rbind]. split.
  - intros Hno. by rewrite filter_tag_nil.
  - intros c Hc Htag t1 t2.
    destruct (base.filter _ (children rep_element)) as [|c' l] eqn:Hl; [|done].
    assert (Hin : c ∈ base.filter
                    (λ c, ET.has_tag ("{" +:+ uri +:+ "}" +:+ "SegmentTemplate") c = true)
                    (children rep_element)).
    { apply list_elem_of_filter. split; [|done]. unfold ET.has_tag.
      by apply bool_decide_eq_true. }
    rewrite Hl in Hin. by apply elem_of_nil in Hin.
Qed.

Lemma parse_representations_uniform reps adapt_set adapt_seg_template
    base_url mime_type lang l :
  parse_representations urljoin ns reps adapt_set adapt_seg_template
    base_url mime_type lang = Ok l →
  (length l ≤ length reps)%nat
  ∧ ∀ rep, rep ∈ l →
      Rep.language rep = lang
      ∧ Rep.type rep = (if Py.truthy (Some mime_type)
                        then Py.split_head "/" mime_type else "unknown").
Proof.
  revert l; induction reps as [|r reps IH]; intros l; simpl.
  - intros [= <-]. split; [done|]. by intros rep Hrep%elem_of_nil.
  - intros H. inv_bind H as o Ho. inv_bind H as rs Hrs. injection H as <-.
    destruct (IH rs Hrs) as [Hlen Hall]. destruct o as [rep0|].
    + split; [simpl; lia|]. intros rep [->|Hrep]%elem_of_cons; [|by apply Hall].
      by destruct (parse_representation_meta _ _ _ _ _ _ _ Ho) as (_ & _ & ? & ? & _).
    + split; [lia|done].
Qed.

(** X8.  The representations parsed from one AdaptationSet all carry
    its language and the major type of its [mimeType] ([unknown]
    without one), and there are no more of them than Representation
    children. *)
Theorem adaptation_set_uniform adapt_set base_url reps all :
  ET.findall adapt_set ns "mpd" "Representation" = Ok all →
  parse_adaptation_set urljoin ns adapt_set base_url = Ok reps →
  (length reps ≤ length all)%nat
  ∧ ∀ rep, rep ∈ reps →
      Rep.language rep = default "" (ET.get adapt_set "lang")
      ∧ Rep.type rep =
          match ET.get adapt_set "mimeType" with
          | Some (String c m) => Py.split_head "/" (String c m)
          | _ => "unknown"
          end.
Proof.
  intros Hall. unfold parse_adaptation_set. intros H.
  inv_bind H as tmpl Htmpl. rewrite Hall in H. cbn [rbind] in H.
  apply parse_representations_uniform in H as [Hlen H]. split; [done|].
  intros rep Hrep. destruct (H rep Hrep) as [Hl Ht]. split; [done|].
  rewrite Ht. by destruct (ET.get adapt_set "mimeType") as [[|c m]|].
Qed.

End RepresentationMore.

Lemma segment_urls_never_null_witness :
  ∃ rep,
    RepresentationParser._parse_representation Examples.concat_join Examples.ns
      Examples.rep_time (Examples.adaptation_set [Examples.rep_time]) None
      Examples.base_url "video/mp4" "" = Ok (Some rep)
    ∧ ∀ u, u ∈ Rep.segment_urls rep → is_Some u.
Proof.
  assert (Hp : ∃ rep,
             RepresentationParser._parse_representation Examples.concat_join Examples.ns
               Examples.rep_time (Examples.adaptation_set [Examples.rep_time]) None
               Examples.base_url "video/mp4" "" = Ok (Some rep))
    by (vm_compute; eexists; reflexivity).
  destruct Hp as [rep Hp]. exists rep. split; [exact Hp|].
  exact (segment_urls_never_null _ _ _ _ _ _ _ _ _ Hp).
Defined.

Lemma template_selection_witness :
  RepresentationParser._parse_representation Examples.concat_join Examples.ns
    (Examples.representation []) (Examples.adaptation_set [Examples.representation []])
    None Examples.base_url "video/mp4" "" = Ok None.
Proof.
  assert (Hns : Examples.ns !! "mpd" = Some Examples.dash) by (by vm_compute).
  apply (proj1 (template_selection Examples.concat_join Examples.ns Examples.dash
                  (Examples.representation [])
                  (Examples.adaptation_set [Examples.representation []])
                  Examples.base_url "video/mp4" "" Hns)).
  by intros c Hc%elem_of_nil.
Defined.

Lemma adaptation_set_uniform_witness :
  ∃ reps,
    RepresentationParser.parse_adaptation_set Examples.concat_join Examples.ns
      (Examples.adaptation_set [Examples.rep_time; Examples.rep_plain])
      Examples.base_url = Ok reps
    ∧ (length reps ≤ 2)%nat.
Proof.
  assert (Hp : ∃ reps,
             RepresentationParser.parse_adaptation_set Examples.concat_join Examples.ns
               (Examples.adaptation_set [Examples.rep_time; Examples.rep_plain])
               Examples.base_url = Ok reps)
    by (vm_compute; eexists; reflexivity).
  destruct Hp as [reps Hp]. exists reps. split; [exact Hp|].
  assert (Hall : ET.findall (Examples.adaptation_set [Examples.rep_time; Examples.rep_plain])
                   Examples.ns "mpd" "Representation"
                 = Ok [Examples.rep_time; Examples.rep_plain]) by (by vm_compute).
  exact (proj1 (adaptation_set_uniform _ _ _ _ _ _ Hall Hp)).
Defined.

(** ** Attributes that are not integers, and base URLs *)

Section RepresentationErrors.
Import RepresentationParser.

Variable urljoin : string → string → string.
Variable ns : gmap string string.
Variable uri : string.
Hypothesis registered : ns !! "mpd" = Some uri.

Lemma int_or_none_raises x e : int_or_none x = Raise e → e = ValueError.
Proof.
  unfold int_or_none. destruct (Py.truthy x); [|done]. destruct x as [s|]; [|done].
  destruct (Py.int s) as [z|e'] eqn:Hs; [done|]. intros [= <-]. by eapply int_raises.
Qed.

Lemma int_or_zero_bad b :
  b ≠ "" → (∀ z, Py.int b ≠ Ok z) → int_or_zero (Some b) = Raise ValueError.
Proof.
  intros Hne Hbad. unfold int_or_zero, int_or_none. destruct b as [|c b]; [done|].
  cbn [Py.truthy]. destruct (Py.int (String c b)) as [z|e] eqn:Hs; [by destruct (Hbad z)|].
  by rewrite (int_raises _ _ Hs).
Qed.

Lemma media_urls_raises media base rep_id bandwidth nl tl e :
  _build_media_urls urljoin media base rep_id bandwidth nl tl = Raise e → e = ValueError.
Proof.
  unfold _build_media_urls. destruct (negb (Py.truthy media)); [done|].
  destruct (int_or_none bandwidth) as [bw|e'] eqn:Hbw; cbn [rbind].
  - destruct (_ && _); [done|]. by destruct (_ && _).
  - intros [= <-]. by eapply int_or_none_raises.
Qed.

Lemma parse_timeline_raises tl e :
  SegmentTimelineParser.parse ns tl = Raise e → e = ValueError.
Proof.
  destruct tl as [tl|]; [|done]. unfold SegmentTimelineParser.parse.
  rewrite (findall_registered _ _ _ _ _ registered). cbn [rbind].
  destruct (SegmentTimelineParser.loop _ _) as [st|e'] eqn:Hl; [done|].
  intros [= <-]. by eapply loop_raises.
Qed.

Lemma build_segment_urls_raises seg_tmpl rep_id bandwidth base e :
  _build_segment_urls urljoin ns seg_tmpl rep_id bandwidth base = Raise e → e = ValueError.
Proof.
  unfold _build_segment_urls.
  destruct (match ET.get seg_tmpl "startNumber" with
            | Some s => Py.int s
            | None => Ok 1
            end) as [start|e'] eqn:Hstart; cbn [rbind].
  2:{ intros [= <-]. destruct (ET.get seg_tmpl "startNumber"); [|done].
      by eapply int_raises. }
  destruct (if Py.truthy (ET.get seg_tmpl "initialization") then _ else _)
    as [iu|e'] eqn:Hiu; cbn [rbind].
  2:{ intros [= <-]. destruct (Py.truthy _); [|done].
      destruct (int_or_none bandwidth) as [b|e''] eqn:Hb; [done|].
      injection Hiu as <-. by eapply int_or_none_raises. }
  rewrite (find_registered _ _ _ _ _ registered). cbn [rbind].
  destruct (SegmentTimelineParser.parse ns _) as [[nl tl]|e'] eqn:Hp; cbn [rbind];
    [|intros [= <-]; by eapply parse_timeline_raises].
  destruct (_build_media_urls _ _ _ _ _ _ _) as [urls|e'] eqn:Hu; cbn [rbind]; [done|].
  intros [= <-]. by eapply media_urls_raises.
Qed.

Lemma join_base_registered base e :
  join_base urljoin ns base e =
  Ok (match head (base.filter (λ c, ET.has_tag ("{" +:+ uri +:+ "}" +:+ "BaseURL") c = true)
                    (children e)) with
      | Some b => if Py.truthy (text b)
                  then urljoin base (Py.strip (default "" (text b))) else base
      | None => base
      end).
Proof.
  unfold join_base. rewrite (find_registered _ _ _ _ _ registered). cbn [rbind].
  destruct (head _) as [b|]; [|done]. by destruct (Py.truthy (text b)).
Qed.

(** X9.  A [bandwidth] attribute that is a text but not an integer is
    not defaulted to 0: a Representation that carries one never comes
    out of the parser, and when a SegmentTemplate is available to it
    the parser raises [ValueError]. *)
Theorem bad_bandwidth_raises rep_element adapt_set adapt_seg_template
    base_url mime_type lang b :
  ET.get rep_element "bandwidth" = Some b →
  b ≠ "" →
  (∀ z, Py.int b ≠ Ok z) →
  (∀ rep, _parse_representation urljoin ns rep_element adapt_set adapt_seg_template
            base_url mime_type lang ≠ Ok (Some rep))
  ∧ (is_Some adapt_seg_template →
     _parse_representation urljoin ns rep_element adapt_set adapt_seg_template
       base_url mime_type lang = Raise ValueError).
Proof.
  intros Hb Hne Hbad.
  assert (Hcases : ∀ seg_tmpl rest,
    (let* rep_base_url := _resolve_base_url urljoin ns rep_element adapt_set base_url in
     let* (init_url, media_urls) :=
       _build_segment_urls urljoin ns seg_tmpl (ET.get rep_element "id")
         (ET.get rep_element "bandwidth") rep_base_url in
     let* bw := int_or_zero (ET.get rep_element "bandwidth") in
     rest init_url media_urls bw) = (Raise ValueError : result (option Representation))).
  { intros seg_tmpl rest. unfold _resolve_base_url. rewrite join_base_registered.
    cbn [rbind]. rewrite join_base_registered. cbn [rbind].
    destruct (_build_segment_urls _ _ _ _ _ _) as [[iu urls]|e] eqn:Hbuild; cbn [rbind].
    - by rewrite Hb, (int_or_zero_bad _ Hne Hbad).
    - by rewrite (build_segment_urls_raises _ _ _ _ _ Hbuild). }
  unfold _parse_representation. rewrite (find_registered _ _ _ _ _ registered).
  cbn [rbind]. split.
  - intros rep.
    destruct (match head _ with Some e => Some e | None => adapt_seg_template end)
      as [seg_tmpl|]; [|done].
    by rewrite (Hcases seg_tmpl
                  (λ init_url media_urls bw,
                     let* w := int_or_zero (ET.get rep_element "width") in
                     let* h := int_or_zero (ET.get rep_element "height") in
                     Ok (Some _))).
  - intros [t ->].
    assert (Hsel : ∃ seg_tmpl,
              match head (base.filter
                            (λ c, ET.has_tag ("{" +:+ uri +:+ "}" +:+ "SegmentTemplate") c = true)
                            (children rep_element)) with
              | Some e => Some e
              | None => Some t
              end = Some seg_tmpl) by (destruct (head _); by eexists).
    destruct Hsel as [seg_tmpl ->].
    by rewrite (Hcases seg_tmpl
                  (λ init_url media_urls bw,
                     let* w := int_or_zero (ET.get rep_element "width") in
                     let* h := int_or_zero (ET.get rep_element "height") in
                     Ok (Some _))).
Qed.


End RepresentationErrors.

Lemma bad_bandwidth_raises_witness :
  RepresentationParser._parse_representation Examples.concat_join Examples.ns
    Examples.rep_bad_bandwidth (Examples.adaptation_set [Examples.rep_bad_bandwidth])
    (Some (Examples.template ∅ [])) Examples.base_url "video/mp4" ""
  = Raise ValueError.
Proof.
  assert (Hns : Examples.ns !! "mpd" = Some Examples.dash) by (by vm_compute).
  assert (Hb : ET.get Examples.rep_bad_bandwidth "bandwidth" = Some "5000bps")
    by (by vm_compute).
  apply (proj2 (bad_bandwidth_raises Examples.concat_join Examples.ns Examples.dash Hns
                  Examples.rep_bad_bandwidth
                  (Examples.adaptation_set [Examples.rep_bad_bandwidth])
                  (Some (Examples.template ∅ [])) Examples.base_url "video/mp4" ""
                  "5000bps" Hb ltac:(discriminate) ltac:(intros z; by vm_compute))).
  by eexists.
Defined.


(** ** Queries on the representations *)

Section QueriesMore.
Import MPDParser SelectionSpec.

(** X11.  [get_list] with a type returns, in parse order, exactly the
    representations of that type; without a type, or with the empty
    one, it returns the list as it is. *)
Theorem get_list_filter (representations : list Representation) :
  get_list representations None = representations
  ∧ get_list representations (Some "") = representations
  ∧ ∀ ty, ty ≠ "" →
      get_list representations (Some ty) `sublist_of` representations
      ∧ ∀ r, r ∈ get_list representations (Some ty) ↔ r ∈ representations ∧ Rep.type r = ty.
Proof.
  split; [done|]. split; [done|]. intros ty Hty.
  unfold get_list. destruct ty as [|c ty]; [done|]. cbn [Py.truthy default from_option id].
  split; [apply sublist_filter|]. intros r. apply of_type_elem.
Qed.

(** X12.  The methods of the parser agree with the static selector:
    [get_best_video] is [get_best] on the parsed list when it holds a
    video representation and null otherwise, even when audio
    representations exist; [get_best_audio] is [get_best] on the audio
    representations. *)
Theorem typed_best_agrees (self : t) :
  (get_resolutions self ≠ [] → get_best_video self = get_best (representations self))
  ∧ (get_resolutions self = [] → get_best_video self = None)
  ∧ get_best_audio self = get_best (get_audios self).
Proof.
  unfold get_best_video, get_best_audio, get_best, get_resolutions, get_audios.
  split; [|split].
  - by destruct (of_type "video" (representations self)).
  - by intros ->.
  - rewrite of_type_idem, of_type_other by done.
    by destruct (of_type "audio" (representations self)).
Qed.

End QueriesMore.

Lemma get_list_filter_witness :
  MPDParser.get_list [Examples.audio_en; Examples.video_a; Examples.audio_fr] (Some "audio")
    `sublist_of` [Examples.audio_en; Examples.video_a; Examples.audio_fr].
Proof.
  apply (proj2 (proj2 (get_list_filter
                         [Examples.audio_en; Examples.video_a; Examples.audio_fr]))
           "audio" ltac:(discriminate)).
Defined.

Lemma typed_best_agrees_witness :
  MPDParser.get_best_video
    (Examples.with_representations [Examples.audio_heavy; Examples.video_c])
  = MPDParser.get_best [Examples.audio_heavy; Examples.video_c].
Proof.
  apply (proj1 (typed_best_agrees
                  (Examples.with_representations [Examples.audio_heavy; Examples.video_c]))).
  by vm_compute.
Defined.

(** ** Selecting video and audio *)

Section SelectMore.
Import MPDParser SelectionSpec.




Lemma first_of_lang_Some lang l rep :
  first_of_lang lang l = Some rep → rep ∈ l ∧ shown_tag_matches rep lang.
Proof.
  induction l as [|r l IH]; simpl; [done|].
  case_bool_decide as Hm.
  - intros [= <-]. split; [apply elem_of_cons; auto|done].
  - intros [Hin Hrep]%IH. split; [apply elem_of_cons; auto|done].
Qed.

Lemma first_preferred_Some langs l rep lang :
  first_preferred langs l = Some (rep, lang) →
  lang ∈ langs ∧ rep ∈ l ∧ shown_tag_matches rep lang.
Proof.
  induction langs as [|l0 langs IH]; simpl; [done|].
  destruct (first_of_lang l0 l) as [r|] eqn:Hf.
  - intros [= <- <-]. apply first_of_lang_Some in Hf as [Hin Hm].
    split; [apply elem_of_cons; auto|done].
  - intros (Hl & Hin & Hm)%IH. split; [apply elem_of_cons; auto|done].
Qed.

(** X14.  [select_audio] never selects anything but an audio
    representation of the manifest, and selects one whenever there is
    one: the selection is null exactly when the manifest has no audio
    representation, and then it is shown as [N/A].  The selection
    matches the preferred language reported as the filter, or else the
    filter is [First] and the selection is the audio representation of
    highest bandwidth.  The available languages are listed one per
    audio representation. *)
Theorem select_audio_contract (self : t) (prefs : option (list string)) :
  let result := select_audio self prefs in
  let selected := result.1.1.1 in
  let filter := result.1.2 in
  result.1.1.2 = language_or_none <$> get_audios self
  ∧ (selected = None ↔ get_audios self = [])
  ∧ match selected with
    | Some rep =>
        rep ∈ get_audios self
        ∧ Rep.type rep = "audio"
        ∧ result.2 = language_or_none rep
        ∧ ((∃ langs, prefs = Some langs ∧ filter ∈ langs ∧ shown_tag_matches rep filter)
           ∨ (filter = "First" ∧ get_best_audio self = Some rep))
    | None => result.2 = "N/A"
    end.
Proof.
  cbn zeta. unfold select_audio.
  assert (Hty : ∀ r, r ∈ get_audios self → Rep.type r = "audio")
    by (intros r Hr; by apply of_type_elem in Hr as [_ ?]).
  assert (Hbest : match get_best_audio self with
                  | Some r => r ∈ get_audios self
                  | None => get_audios self = []
                  end).
  { unfold get_best_audio. destruct (get_audios self) as [|a l]; [done|].
    apply max_from_in. }
  assert (Hfallback :
    ∀ (P : option Representation → string → Prop),
      (∀ r, get_best_audio self = Some r → r ∈ get_audios self → P (Some r) (language_or_none r)) →
      (get_best_audio self = None → get_audios self = [] → P None "N/A") →
      P (get_best_audio self)
        match get_best_audio self with
        | Some rep => language_or_none rep
        | None => "N/A"
        end).
  { intros P HS HN. destruct (get_best_audio self) as [r|]; [by apply HS|by apply HN]. }
  destruct prefs as [[|l0 langs]|].
  - split; [done|]. cbn [fst snd].
    apply (Hfallback (λ sel down,
             (sel = None ↔ get_audios self = [])
             ∧ match sel with
               | Some rep =>
                   rep ∈ get_audios self ∧ Rep.type rep = "audio"
                   ∧ down = language_or_none rep
                   ∧ ((∃ langs, Some [] = Some langs ∧ "First" ∈ langs
                                ∧ shown_tag_matches rep "First")
                      ∨ ("First" = "First" ∧ get_best_audio self = Some rep))
               | None => down = "N/A"
               end)).
    + intros r Hr Hin. split; [split; [done|]; intros Hnil; rewrite Hnil in Hin;
        by apply elem_of_nil in Hin|]. split; [done|]. split; [by apply Hty|]. auto.
    + intros Hb Hnil. done.
  - destruct (first_preferred (l0 :: langs) (get_audios self)) as [[rep lang]|] eqn:Hp.
    + apply first_preferred_Some in Hp as (Hl & Hin & Hm).
      split; [done|]. split.
      * split; [done|]. intros Hnil. simpl in Hnil. rewrite Hnil in Hin.
        by apply elem_of_nil in Hin.
      * split; [done|]. split; [by apply Hty|]. split; [done|]. left.
        by exists (l0 :: langs).
    + split; [done|]. cbn [fst snd].
      apply (Hfallback (λ sel down,
               (sel = None ↔ get_audios self = [])
               ∧ match sel with
                 | Some rep =>
                     rep ∈ get_audios self ∧ Rep.type rep = "audio"
                     ∧ down = language_or_none rep
                     ∧ ((∃ langs', Some (l0 :: langs) = Some langs' ∧ "First" ∈ langs'
                                   ∧ shown_tag_matches rep "First")
                        ∨ ("First" = "First" ∧ get_best_audio self = Some rep))
                 | None => down = "N/A"
                 end)).
      * intros r Hr Hin. split; [split; [done|]; intros Hnil; rewrite Hnil in Hin;
          by apply elem_of_nil in Hin|]. split; [done|]. split; [by apply Hty|]. auto.
      * intros Hb Hnil. done.
  - split; [done|]. cbn [fst snd].
    apply (Hfallback (λ sel down,
             (sel = None ↔ get_audios self = [])
             ∧ match sel with
               | Some rep =>
                   rep ∈ get_audios self ∧ Rep.type rep = "audio"
                   ∧ down = language_or_none rep
                   ∧ ((∃ langs, None = Some langs ∧ "First" ∈ langs
                                ∧ shown_tag_matches rep "First")
                      ∨ ("First" = "First" ∧ get_best_audio self = Some rep))
               | None => down = "N/A"
               end)).
    + intros r Hr Hin. split; [split; [done|]; intros Hnil; rewrite Hnil in Hin;
        by apply elem_of_nil in Hin|]. split; [done|]. split; [by apply Hty|]. auto.
    + intros Hb Hnil. done.
Qed.

End SelectMore.


Lemma select_audio_contract_witness :
  (MPDParser.select_audio
     (Examples.with_representations [Examples.video_c])
     (Some ["en"])).1.1.1 = None.
Proof.
  pose proof (select_audio_contract
                (Examples.with_representations [Examples.video_c])
                (Some ["en"])) as H.
  cbn zeta in H. destruct H as (_ & H & _). apply H. by vm_compute.
Defined.

(** ** The parser object *)

Section ParserMore.
Import MPDParser PsshSpec.


End ParserMore.


(** ** The parsing pipeline *)

Section PipelineMore.
Import MPDParser.

Variable urljoin : string → string → string.

(** X16.  A manifest whose root tag carries no namespace cannot be
    parsed: after the fetch, [parse] on a fresh parser raises
    [SyntaxError] from the PSSH search, with the root set and nothing
    else: no prefix, no PSSH, no representation. *)
Theorem parse_plain_root max_retry network url doc :
  0 ≤ max_retry →
  network 0%nat = Reply false (Some doc) →
  Py.startswith "{" (tag doc) = false →
  parse urljoin max_retry network (new url) = (set_root (new url) doc, Raise SyntaxError).
Proof.
  intros Hmax Hnet Hplain. unfold parse, seq_, _fetch_and_parse_mpd.
  rewrite (fetch_loop_success max_retry network 0 _ 0 (new url) doc);
    [|lia|intros i Hi; lia|simpl; lia|simpl; by rewrite Hnet].
  change (FetchSpec.after_retries max_retry (new url) 0 0) with (new url).
  unfold _extract_namespace. cbn [set_root root]. rewrite Hplain.
  unfold _extract_pssh. cbn [set_root root ns new].
  unfold ET.findall_desc, ET.qname. by rewrite lookup_empty.
Qed.

(** X17.  With a negative [max_retry] no request is made at all: the
    fetch returns normally and leaves the parser as it is, so that
    [parse] on a fresh parser raises [AttributeError] at the first use
    of the root. *)
Theorem fetch_negative_retry max_retry network :
  max_retry < 0 →
  (∀ self, _fetch_and_parse_mpd max_retry network self = (self, Ok ()))
  ∧ ∀ url, parse urljoin max_retry network (new url) = (new url, Raise AttributeError).
Proof.
  intros Hneg.
  assert (Hfetch : ∀ self, _fetch_and_parse_mpd max_retry network self = (self, Ok ())).
  { intros self. unfold _fetch_and_parse_mpd.
    by replace (Z.to_nat (max_retry + 1)) with 0%nat by lia. }
  split; [done|]. intros url. unfold parse, seq_. by rewrite Hfetch.
Qed.

Lemma fetch_loop_frame max_retry network n : ∀ attempt self,
  n = 0%nat ∨ Z.of_nat n + Z.of_nat attempt = max_retry + 1 →
  let res := fetch_loop max_retry network n attempt self in
  mpd_url res.1 = mpd_url self
  ∧ pssh res.1 = pssh self
  ∧ representations res.1 = representations self
  ∧ ns res.1 = ns self
  ∧ console self `prefix_of` console res.1
  ∧ match res.2 with
    | Ok _ =>
        (n = 0%nat ∧ res.1 = self)
        ∨ ∃ i doc, attempt_once (network i) = Ok doc ∧ root res.1 = Some doc
    | Raise e => root res.1 = root self ∧ ∃ i, attempt_once (network i) = Raise e
    end.
Proof.
  induction n as [|n IH]; intros attempt self Hn; cbn zeta.
  - simpl. repeat split; try done. by left.
  - destruct Hn as [|Hn]; [done|].
    cbn [fetch_loop]. destruct (attempt_once (network attempt)) as [doc|e] eqn:Ha.
    + cbn. repeat split; try done. right. by exists attempt, doc.
    + destruct (Z.eqb_spec (Z.of_nat attempt) max_retry) as [Heq|Hne].
      * cbn. repeat split; try done. by exists attempt.
      * specialize (IH (S attempt) (print self (retry_message attempt max_retry))
                      ltac:(right; lia)).
        cbn zeta in IH. destruct IH as (H1 & H2 & H3 & H4 & H5 & H6).
        cbn [print mpd_url pssh representations ns console root] in *.
        split; [done|]. split; [done|]. split; [done|]. split; [done|].
        split; [etrans; [|exact H5]; by apply prefix_app_r|].
        destruct (fetch_loop _ _ _ _ _).2 as [u|e'].
        -- right. destruct H6 as [[Hz _]|H6]; [lia|done].
        -- done.
Qed.

(** X18.  The fetch touches nothing but the root and the console, and
    the console only grows.  When it returns normally after a request,
    the root is a document that a request has brought; when it raises,
    the exception is that of a request and the root is as before. *)
Theorem fetch_frame max_retry network (self : t) :
  let res := _fetch_and_parse_mpd max_retry network self in
  mpd_url res.1 = mpd_url self
  ∧ pssh res.1 = pssh self
  ∧ representations res.1 = representations self
  ∧ ns res.1 = ns self
  ∧ console self `prefix_of` console res.1
  ∧ match res.2 with
    | Ok _ =>
        (max_retry < 0 ∧ res.1 = self)
        ∨ ∃ i doc, attempt_once (network i) = Ok doc ∧ root res.1 = Some doc
    | Raise e => root res.1 = root self ∧ ∃ i, attempt_once (network i) = Raise e
    end.
Proof.
  cbn zeta. unfold _fetch_and_parse_mpd.
  pose proof (fetch_loop_frame max_retry network (Z.to_nat (max_retry + 1)) 0%nat self
                ltac:(lia)) as H.
  cbn zeta in H. destruct H as (H1 & H2 & H3 & H4 & H5 & H6).
  split; [done|]. split; [done|]. split; [done|]. split; [done|]. split; [done|].
  destruct (fetch_loop _ _ _ _ _).2 as [u|e]; [|done].
  destruct H6 as [[Hn Hself]|H6]; [|by right].
  left. split; [lia|done].
Qed.

End PipelineMore.

Lemma parse_plain_root_witness :
  MPDParser.parse Examples.concat_join 2
    (λ _, MPDParser.Reply false (Some Examples.plain_root))
    (MPDParser.new Examples.mpd_url)
  = (MPDParser.set_root (MPDParser.new Examples.mpd_url) Examples.plain_root,
     Raise SyntaxError).
Proof. apply parse_plain_root; [lia|reflexivity|reflexivity]. Defined.

Lemma fetch_negative_retry_witness :
  MPDParser.parse Examples.concat_join (-1) Examples.unreachable_once
    (MPDParser.new Examples.mpd_url)
  = (MPDParser.new Examples.mpd_url, Raise AttributeError).
Proof.
  apply (proj2 (fetch_negative_retry Examples.concat_join (-1)
                  Examples.unreachable_once ltac:(lia))).
Defined.

Section ExtendMore.
Import MPDParser.

Variable urljoin : string → string → string.

Lemma parse_sets_appends base l : ∀ self1 self2,
  ns self1 = ns self2 →
  let res1 := parse_sets urljoin base l self1 in
  let res2 := parse_sets urljoin base l self2 in
  res1.2 = res2.2
  ∧ (mpd_url res1.1 = mpd_url self1 ∧ pssh res1.1 = pssh self1 ∧ ns res1.1 = ns self1
     ∧ root res1.1 = root self1 ∧ console res1.1 = console self1)
  ∧ ∃ new,
      representations res1.1 = representations self1 ++ new
      ∧ representations res2.1 = representations self2 ++ new.
Proof.
  induction l as [|adapt_set l IH]; intros self1 self2 Hns; cbn zeta.
  - simpl. split; [done|]. split; [done|]. exists []. by rewrite !app_nil_r.
  - cbn [parse_sets]. rewrite <- Hns.
    destruct (RepresentationParser.parse_adaptation_set urljoin (ns self1) adapt_set base)
      as [reps|e].
    + specialize (IH (set_representations self1 (representations self1 ++ reps))
                     (set_representations self2 (representations self2 ++ reps)) Hns).
      cbn zeta in IH. destruct IH as (Hres & Hframe & new & Hn1 & Hn2).
      split; [done|]. split; [done|]. exists (reps ++ new).
      cbn [set_representations representations] in Hn1, Hn2.
      by rewrite Hn1, Hn2, !app_assoc.
    + cbn. split; [done|]. split; [done|]. exists []. by rewrite !app_nil_r.
Qed.

(** X19.  Parsing the representations only appends to the list the
    parser already holds and touches no other field; nothing resets the
    list, so that a second run on the same object ends like the first
    and leaves every new representation twice. *)
Theorem parse_representations_appends (self : t) :
  let res := _parse_representations urljoin self in
  mpd_url res.1 = mpd_url self ∧ pssh res.1 = pssh self ∧ ns res.1 = ns self
  ∧ root res.1 = root self ∧ console res.1 = console self
  ∧ ∃ new,
      representations res.1 = representations self ++ new
      ∧ let again := _parse_representations urljoin res.1 in
        again.2 = res.2
        ∧ representations again.1 = representations self ++ new ++ new.
Proof.
  cbn zeta.
  assert (Hfail : ∀ e,
            _parse_representations urljoin self = (self, Raise e) →
            ∃ new,
                representations self = representations self ++ new
                ∧ (_parse_representations urljoin self).2 = Raise e
                ∧ representations (_parse_representations urljoin self).1
                  = representations self ++ new ++ new).
  { intros e He. exists []. rewrite !app_nil_r. by rewrite He. }
  destruct (root self) as [r|] eqn:Hroot.
  2:{ assert (He : _parse_representations urljoin self = (self, Raise AttributeError))
        by (unfold _parse_representations; by rewrite Hroot).
      rewrite He. cbn [fst snd]. do 5 (split; [done|]). by apply Hfail. }
  destruct (let* base_url := _get_initial_base_url urljoin self r in
            let* sets := ET.findall_desc r (ns self) "mpd" "AdaptationSet" in
            Ok (base_url, sets)) as [[base_url sets]|e] eqn:Hprep.
  2:{ assert (He : _parse_representations urljoin self = (self, Raise e))
        by (unfold _parse_representations; by rewrite Hroot, Hprep).
      rewrite He. cbn [fst snd]. do 5 (split; [done|]). by apply Hfail. }
  clear Hfail.
  assert (Heq : _parse_representations urljoin self = parse_sets urljoin base_url sets self)
    by (unfold _parse_representations; by rewrite Hroot, Hprep).
  rewrite Heq.
  pose proof (parse_sets_appends base_url sets self self eq_refl) as H.
  cbn zeta in H. destruct H as (_ & (H1 & H2 & H3 & H4 & H5) & new & Hnew & _).
  set (self1 := (parse_sets urljoin base_url sets self).1) in *.
  rewrite Hroot in H4.
  do 5 (split; [done|]). exists new. split; [done|].
  assert (Heq1 : _parse_representations urljoin self1 = parse_sets urljoin base_url sets self1).
  { unfold _parse_representations. rewrite H4.
    unfold _get_initial_base_url in *. by rewrite H1, H3, Hprep. }
  rewrite Heq1.
  pose proof (parse_sets_appends base_url sets self1 self H3) as H.
  cbn zeta in H. destruct H as (Hres & _ & new' & Hn1 & Hn2).
  split; [done|]. rewrite Hn1.
  fold self1 in Hn2. rewrite Hnew in Hn2. apply app_inv_head in Hn2 as <-.
  by rewrite Hnew, app_assoc.
Qed.

End ExtendMore.

(** ** The license exchange *)

Section LicenseMore.
Import Widevine WidevineSpec HexSpec.

Lemma content_keys_as_filter keys :
  content_keys keys = to_content_key <$> base.filter (λ k, type k = "CONTENT") keys.
Proof.
  rewrite content_keys_filter. f_equal. apply list_filter_iff. intros k.
  unfold is_content. apply bool_decide_eq_true.
Qed.

Lemma exchange_Some w log cks :
  exchange w = Ok (log, Some cks) →
  log = [] ∧ cks ≠ []
  ∧ get_license_challenge w = Ok ()
  ∧ ∃ keys,
      (∃ response bytes,
         post w = Ok response
         ∧ status_code response = 200
         ∧ license_of w response = inr bytes
         ∧ bytes ≠ []
         ∧ parse_license w bytes = Ok ())
      ∧ get_keys w = Ok keys
      ∧ cks = content_keys keys.
Proof.
  unfold exchange. destruct (get_license_challenge w) as [[]|e]; [|done]. cbn [rbind].
  destruct (post w) as [response|e]; [|done].
  destruct (Z.eqb_spec (status_code response) 200) as [Hst|Hst]; [|done]. cbn [negb].
  destruct (license_of w response) as [d|[|x bytes]] eqn:Hlic; [done|done|].
  destruct (parse_license w (x :: bytes)) as [[]|e] eqn:Hparse; [|done].
  destruct (get_keys w) as [keys|e]; [|done]. cbn [rbind].
  destruct (content_keys keys) as [|ck cks'] eqn:Hck; [done|].
  intros [= <- <-]. split; [done|]. split; [done|]. split; [done|].
  exists keys. split; [|by rewrite Hck]. by exists response, (x :: bytes).
Qed.

(** X20.  Keys are returned only after a license exchange that went
    through completely: a device path was given, the session opened
    and closed, the status was 200, the license was not empty and the
    CDM parsed it.  The list returned is then not empty, it holds the
    CONTENT keys of the session in their order, and nothing has been
    printed. *)
Theorem keys_only_after_success path w log cks :
  get_widevine_keys path w = (log, Ok (Some cks)) →
  Py.truthy path = true
  ∧ log = []
  ∧ cks ≠ []
  ∧ ∃ keys,
      successful w keys
      ∧ cks = to_content_key <$> base.filter (λ k, type k = "CONTENT") keys.
Proof.
  unfold get_widevine_keys, with_session.
  destruct (Py.truthy path); [|done]. cbn [negb].
  destruct (open_session w) as [[]|e] eqn:Hopen; [|done].
  destruct (exchange w) as [[log' v]|e] eqn:Hex.
  - destruct (close w) as [[]|e] eqn:Hclose; [|done]. cbn [rbind].
    intros [= <- ->]. apply exchange_Some in Hex as (-> & Hne & Hch & keys & Hresp & Hkeys & ->).
    split; [done|]. split; [done|]. split; [done|]. exists keys.
    split; [|apply content_keys_as_filter]. by repeat split.
  - by destruct (close w).
Qed.

(** X21.  An exception of [cdm.close] discards the outcome of the
    exchange: once the session is open, the function returns [None],
    after the message of the outer handler, even when the keys had
    been extracted. *)
Theorem close_failure_discards_keys path w e :
  Py.truthy path = true →
  open_session w = Ok () →
  close w = Raise e →
  ∃ log, get_widevine_keys path w = (log ++ [CdmFailure], Ok None).
Proof.
  intros Hpath Hopen Hclose. unfold get_widevine_keys, with_session.
  rewrite Hpath, Hopen, Hclose. cbn [negb].
  destruct (exchange w) as [[log v]|e']; cbn [rbind]; by eexists.
Qed.

Lemma exchange_log w log v :
  exchange w = Ok (log, v) → (log = [] ↔ is_Some v).
Proof.
  unfold exchange. destruct (get_license_challenge w) as [[]|e]; [|done]. cbn [rbind].
  destruct (post w) as [response|e]; [|intros [= <- <-]; split; [done|by intros []]].
  destruct (negb _); [intros [= <- <-]; split; [done|by intros []]|].
  destruct (license_of w response) as [d|[|x bytes]];
    try (intros [= <- <-]; split; [done|by intros []]).
  destruct (parse_license w (x :: bytes)) as [[]|e];
    [|intros [= <- <-]; split; [done|by intros []]].
  destruct (get_keys w) as [keys|e]; [|done]. cbn [rbind].
  destruct (content_keys keys) as [|ck cks'];
    intros [= <- <-]; split; try done; by intros [].
Qed.

(** X22.  The function never fails silently and never raises: it
    returns [None] exactly when it has printed a diagnostic, and keys
    exactly when it has printed nothing. *)
Theorem diagnostics_iff_no_keys path w :
  let res := get_widevine_keys path w in
  ∃ v, res.2 = Ok v ∧ (res.1 = [] ↔ is_Some v).
Proof.
  cbn zeta. unfold get_widevine_keys, with_session.
  destruct (Py.truthy path); cbn [negb];
    [|eexists; split; [done|]; split; [done|by intros []]].
  destruct (open_session w) as [[]|e];
    [|eexists; split; [done|]; split; [done|by intros []]].
  destruct (exchange w) as [[log v]|e] eqn:Hex.
  - apply exchange_log in Hex.
    destruct (close w) as [[]|e]; cbn [rbind fst snd].
    + by exists v.
    + eexists. split; [done|]. split; [|by intros []].
      intros Hnil. by destruct log.
  - destruct (close w) as [[]|e']; cbn [rbind fst snd];
      (eexists; split; [done|]; split; [done|by intros []]).
Qed.

Lemma hex_digit_roundtrip n :
  (n < 16)%N → unhex_digit (hex_digit n) = Some n.
Proof.
  intros Hn.
  assert (Hcases : n ∈ (N.of_nat <$> seq 0 16)).
  { apply list_elem_of_fmap. exists (N.to_nat n). split; [lia|].
    apply elem_of_seq. lia. }
  cbn in Hcases. set_unfold. by repeat destruct Hcases as [->|Hcases].
Qed.

Lemma unhex_hex l : unhex (hex l) = Some l.
Proof.
  induction l as [|x l IH]; [done|]. cbn [hex unhex].
  assert (Hx : (Byte.to_N x < 256)%N) by (pose proof (Byte.to_N_bounded x); lia).
  rewrite !hex_digit_roundtrip, IH;
    [|apply N.mod_lt; lia|apply N.Div0.div_lt_upper_bound; lia].
  replace (16 * (Byte.to_N x / 16) + Byte.to_N x mod 16)%N with (Byte.to_N x)
    by (rewrite (N.div_mod (Byte.to_N x) 16) at 1; lia).
  by rewrite Byte.of_to_N.
Qed.

(** X23.  The normalised text of a key-ID or key value that is [bytes]
    or a UUID determines its bytes: decoding the hex digits gives the
    bytes back, there are two digits for each byte (32 for a UUID of 16
    bytes), and values of different bytes have different texts, whether
    they come as [bytes] or as UUID. *)
Theorem normalized_key_roundtrip v b :
  raw v = Some b →
  unhex (normalize (hex_or_str v)) = Some b
  ∧ String.length (normalize (hex_or_str v)) = (2 * length b)%nat
  ∧ ∀ v' b',
      raw v' = Some b' →
      normalize (hex_or_str v) = normalize (hex_or_str v') → b = b'.
Proof.
  intros Hv. rewrite (normalize_raw _ _ Hv).
  split; [apply unhex_hex|]. split.
  - clear Hv. induction b as [|x b IH]; [done|].
    cbn [hex String.length length]. rewrite IH. lia.
  - intros v' b' Hv' Heq. rewrite (normalize_raw _ _ Hv') in Heq.
    apply (f_equal unhex) in Heq. rewrite !unhex_hex in Heq. by injection Heq.
Qed.

End LicenseMore.

Lemma keys_only_after_success_witness :
  ∃ keys, WidevineSpec.successful (Examples.cdm_double Examples.session_keys) keys.
Proof.
  assert (H : Widevine.get_widevine_keys (Some "device.wvd")
                (Examples.cdm_double Examples.session_keys)
              = ([], Ok (Some [{| Widevine.ck_kid := "00112233445566778899aabbccddeeff";
                                  Widevine.ck_key := "deadbeef0102030405060708090a0b0c" |}])))
    by (by vm_compute).
  destruct (keys_only_after_success _ _ _ _ H) as (_ & _ & _ & keys & Hs & _).
  by exists keys.
Defined.

Lemma close_failure_discards_keys_witness :
  ∃ log,
    Widevine.get_widevine_keys (Some "device.wvd")
      (Examples.cdm_close_fails Examples.session_keys)
    = (log ++ [Widevine.CdmFailure], Ok None).
Proof.
  apply (close_failure_discards_keys (Some "device.wvd")
           (Examples.cdm_close_fails Examples.session_keys) CdmError);
    reflexivity.
Defined.

Lemma normalized_key_roundtrip_witness :
  HexSpec.unhex (Widevine.normalize (Widevine.hex_or_str (Widevine.UUID Examples.kid1)))
  = Some Examples.kid1.
Proof.
  apply (proj1 (normalized_key_roundtrip (Widevine.UUID Examples.kid1) Examples.kid1
                  eq_refl)).
Defined.

(** ** The initial base URL *)

Section InitialBase.
Import MPDParser.

Variable urljoin : string → string → string.

Lemma rsplit1_None c s : Py.has_char c s = false → Py.rsplit1 c s = None.
Proof.
  induction s as [|a s IH]; simpl; [done|].
  case_decide as Hac; [done|]. intros Hs. by rewrite IH.
Qed.

Lemma rsplit1_app c dir file :
  Py.has_char c file = false →
  Py.rsplit1 c (dir +:+ String c file) = Some (dir, file).
Proof.
  intros Hfile. induction dir as [|a dir IH].
  - rewrite app_empty_l. simpl. rewrite rsplit1_None by done. by rewrite decide_True.
  - rewrite app_String. simpl. by rewrite IH.
Qed.

(** X24.  The seed of the base URLs is the manifest URL up to its last
    slash, the slash included; a manifest URL without any slash is
    kept whole and a slash is added.  The first BaseURL child of the
    root with a text is joined onto the seed; without one the seed is
    the initial base URL. *)
Theorem initial_base_url_seed (self : t) (r : Element) uri :
  ns self !! "mpd" = Some uri →
  let seed := Py.rsplit_head "/" (mpd_url self) +:+ "/" in
  (∀ dir file,
     mpd_url self = dir +:+ "/" +:+ file → Py.has_char "/" file = false →
     seed = dir +:+ "/")
  ∧ (Py.has_char "/" (mpd_url self) = false → seed = mpd_url self +:+ "/")
  ∧ ((∀ c, c ∈ children r → tag c ≠ "{" +:+ uri +:+ "}" +:+ "BaseURL") →
     _get_initial_base_url urljoin self r = Ok seed)
  ∧ (∀ b l c t,
       base.filter (λ c, ET.has_tag ("{" +:+ uri +:+ "}" +:+ "BaseURL") c = true)
         (children r) = b :: l →
       text b = Some (String c t) →
       _get_initial_base_url urljoin self r = Ok (urljoin seed (Py.strip (String c t)))).
Proof.
  intros Hns. cbn zeta. split; [|split; [|split]].
  - intros dir file Hurl Hfile. unfold Py.rsplit_head. rewrite Hurl.
    change ("/" +:+ file) with (String "/" file). by rewrite rsplit1_app.
  - intros Hno. unfold Py.rsplit_head. by rewrite rsplit1_None.
  - intros Hno. unfold _get_initial_base_url.
    rewrite (find_registered _ _ _ _ _ Hns). cbn [rbind].
    by rewrite filter_tag_nil.
  - intros b l c t Hb Ht. unfold _get_initial_base_url.
    rewrite (find_registered _ _ _ _ _ Hns). cbn [rbind].
    rewrite Hb. cbn [head]. by rewrite Ht.
Qed.

End InitialBase.

Lemma initial_base_url_seed_witness :
  Py.rsplit_head "/" Examples.mpd_url +:+ "/" = "http://host/a" +:+ "/".
Proof.
  assert (Hns : MPDParser.ns (MPDParser.set_ns (MPDParser.new Examples.mpd_url) Examples.ns)
                !! "mpd" = Some Examples.dash) by (by vm_compute).
  pose proof (initial_base_url_seed Examples.concat_join
                (MPDParser.set_ns (MPDParser.new Examples.mpd_url) Examples.ns)
                Examples.dash_root Examples.dash Hns) as H.
  cbn zeta in H. destruct H as [H _].
  apply (H "http://host/a" "manifest.mpd"); reflexivity.
Defined.

(** ** Parsing a manifest in a namespace, end to end *)

Section EndToEnd.
Import RepresentationParser MPDParser PsshSpec.

Variable urljoin : string → string → string.

Section Registered.
Variable m : gmap string string.
Variable uri : string.
Hypothesis registered : m !! "mpd" = Some uri.




End Registered.





End EndToEnd.

